(** * Real-time collaboration core of the collaborative workspace

    A shallow embedding of [CollaborationHandler]
    (collaboration-service, handlers/collaborationHandler.js) together with
    the parts of its surroundings that the handler talks to: the Socket.IO
    room registry, the Mongoose [Document] collection, the Redis presence
    sets and the Redis publish/subscribe channels.

    Numbers ([userId], [version]) are integers; the model covers the range
    in which JavaScript's Number arithmetic is exact. *)

From stdpp Require Import gmap strings list fin_maps pretty.
From Stdlib Require Import ZArith.

Local Open Scope Z_scope.

(** ** Data model *)

(** models/Document.js: [permission] is an enum of three strings. *)
Inductive Permission := read | write | admin.

#[global] Instance Permission_eq_dec : EqDecision Permission.
Proof. solve_decision. Defined.

Record Collaborator := {
  c_userId : Z;
  c_username : string;
  c_permission : Permission
}.

Record LastEditedBy := {
  e_userId : Z;
  e_username : string;
  e_timestamp : Z
}.

#[global] Instance LastEditedBy_eq_dec : EqDecision LastEditedBy.
Proof. solve_decision. Defined.

Record Document := {
  title : string;
  content : string;
  ownerId : Z;
  ownerUsername : string;
  collaborators : list Collaborator;
  isPublic : bool;
  version : Z;
  lastEditedBy : option LastEditedBy
}.

(** [socket.user], the decoded token: set once by the authentication
    middleware and never written again. *)
Record User := {
  userId : Z;
  username : string
}.

(** The parts of a socket object that never change during its life.  A
    handler receives the socket by reference; the reference is [id]. *)
Record Socket := {
  id : string;
  user : User
}.

(** The mutable parts of a socket object: the Socket.IO rooms it is in and
    the [currentDocument] property the handler sets on it. *)
Record SocketState := {
  s_user : User;
  rooms : gset string;
  currentDocument : option string
}.

(** Payloads of the messages the handler builds. *)
Record PresenceData := {
  p_documentId : string;
  p_userId : Z;
  p_username : string;
  p_action : string;
  p_activeUsers : list Z
}.

Record ContentData := {
  d_documentId : string;
  d_content : string;
  d_title : string;
  d_version : Z
}.

Record UpdateData := {
  u_documentId : string;
  u_content : string;
  u_version : Z;
  u_userId : Z;
  u_username : string;
  u_timestamp : Z;
  u_socketId : string
}.

Record CursorData := {
  k_documentId : string;
  k_userId : Z;
  k_username : string;
  k_position : Z;
  k_socketId : string
}.

Record TypingData := {
  t_userId : Z;
  t_username : string;
  t_isTyping : bool
}.

(** Events sent to clients; the constructor is the event name
    ('error', 'user:presence', 'document:content', 'document:update',
    'cursor:move', 'user:typing'). *)
Inductive ServerEvent :=
  | ev_error (message : string)
  | ev_user_presence (data : PresenceData)
  | ev_document_content (data : ContentData)
  | ev_document_update (data : UpdateData)
  | ev_cursor_move (data : CursorData)
  | ev_user_typing (data : TypingData).

(** Messages on the Redis channels; the constructor is the channel
    ('document:updates', 'document:cursor', 'document:presence').
    JSON.stringify followed by JSON.parse gives the payload back. *)
Inductive RelayMessage :=
  | ch_document_updates (data : UpdateData)
  | ch_document_cursor (data : CursorData)
  | ch_document_presence (data : PresenceData).

Inductive LogLine :=
  | console_log_line (text : string)
  | console_error_line (text : string).

(** One server instance together with the stores it shares with its peers,
    and the trace of what it has sent so far. *)
Record World := {
  sockets : gmap string SocketState;   (* connected sockets of [io], by socket.id *)
  activeUsers : gmap string (gset Z);  (* this.activeUsers: documentId -> Set of userIds *)
  documents : gmap string Document;    (* the Document collection, by _id *)
  redis : gmap string (gset Z);        (* Redis sets, by key; members are the decimal
                                          strings of user ids, read back with parseInt *)
  emitted : list (string * ServerEvent);  (* (receiving socket.id, event), oldest first *)
  published : list RelayMessage;          (* messages handed to redisPub, oldest first *)
  console : list LogLine
}.

Definition set_sockets (f : gmap string SocketState → gmap string SocketState) (w : World) : World :=
  {| sockets := f (sockets w); activeUsers := activeUsers w; documents := documents w;
     redis := redis w; emitted := emitted w; published := published w; console := console w |}.

Definition set_activeUsers (f : gmap string (gset Z) → gmap string (gset Z)) (w : World) : World :=
  {| sockets := sockets w; activeUsers := f (activeUsers w); documents := documents w;
     redis := redis w; emitted := emitted w; published := published w; console := console w |}.

Definition set_documents (f : gmap string Document → gmap string Document) (w : World) : World :=
  {| sockets := sockets w; activeUsers := activeUsers w; documents := f (documents w);
     redis := redis w; emitted := emitted w; published := published w; console := console w |}.

Definition set_redis (f : gmap string (gset Z) → gmap string (gset Z)) (w : World) : World :=
  {| sockets := sockets w; activeUsers := activeUsers w; documents := documents w;
     redis := f (redis w); emitted := emitted w; published := published w; console := console w |}.

Definition add_emitted (l : list (string * ServerEvent)) (w : World) : World :=
  {| sockets := sockets w; activeUsers := activeUsers w; documents := documents w;
     redis := redis w; emitted := emitted w ++ l; published := published w; console := console w |}.

Definition add_published (m : RelayMessage) (w : World) : World :=
  {| sockets := sockets w; activeUsers := activeUsers w; documents := documents w;
     redis := redis w; emitted := emitted w; published := published w ++ [m]; console := console w |}.

Definition add_console (l : LogLine) (w : World) : World :=
  {| sockets := sockets w; activeUsers := activeUsers w; documents := documents w;
     redis := redis w; emitted := emitted w; published := published w; console := console w ++ [l] |}.

(** What the outside world does during one handler call: which of the
    awaited calls reject, and the clock. *)
Record Env := {
  findById_throws : bool;
  save_throws : bool;
  sAdd_throws : bool;
  sRem_throws : bool;
  sMembers_throws : bool;
  publish_throws : bool;
  now : Z;        (* new Date() when the edit is stamped *)
  now_sent : Z    (* new Date() when the update message is built *)
}.

(** ** Handler monad: state, with exceptions that keep the state *)

Inductive Result (A : Type) :=
  | Returned (a : A)
  | Thrown.
Arguments Returned {A} a.
Arguments Thrown {A}.

Definition M (A : Type) : Type := World → Result A * World.

Definition ret {A} (a : A) : M A := λ w, (Returned a, w).

Definition bind {A B} (m : M A) (k : A → M B) : M B :=
  λ w, match m w with
       | (Returned a, w') => k a w'
       | (Thrown, w') => (Thrown, w')
       end.

(** try { body } catch (error) { handler }: the state changes made by
    [body] before it threw are kept. *)
Definition try_catch (body handler : M unit) : M unit :=
  λ w, match body w with
       | (Returned _, w') => (Returned tt, w')
       | (Thrown, w') => handler w'
       end.

Definition modify (f : World → World) : M unit := λ w, (Returned tt, f w).
Definition gets {A} (f : World → A) : M A := λ w, (Returned (f w), w).

Definition exec {A} (m : M A) (w : World) : World := snd (m w).

(** The monad is used through stdpp's [mret]/[mbind] notations
    ([x ← m; k] and [m ;; k]). *)
#[global] Instance M_ret : MRet M := @ret.
#[global] Instance M_bind : MBind M := λ A B k m, bind m k.

(** ** The services the handler calls *)

(** *** Socket.IO (version 4, the one that has [except])

    Rooms are plain names.  A socket is put in the room named by its own id
    when it connects; after that, join and leave add and remove any room
    name for it, that one included.  A broadcast to [room] with a set of
    excepted rooms reaches the sockets that are in [room] and in none of the
    excepted rooms. *)
Definition receives (room : string) (except : gset string) (p : string * SocketState) : Prop :=
  room ∈ rooms p.2 ∧ rooms p.2 ## except.

#[global] Instance receives_dec room except p : Decision (receives room except p).
Proof. unfold receives. apply _. Defined.

Definition recipients (room : string) (except : gset string) (w : World) : list string :=
  (filter (receives room except) (map_to_list (sockets w))).*1.

Definition broadcast (room : string) (except : gset string) (ev : ServerEvent) : M unit :=
  λ w, (Returned tt, add_emitted ((λ sid, (sid, ev)) <$> recipients room except w) w).

(** socket.emit(ev) *)
Definition socket_emit (socket : Socket) (ev : ServerEvent) : M unit :=
  modify (add_emitted [(id socket, ev)]).

(** io.to(room).emit(ev) *)
Definition io_to_emit (room : string) (ev : ServerEvent) : M unit :=
  broadcast room ∅ ev.

(** io.to(room).except(other).emit(ev) *)
Definition io_to_except_emit (room other : string) (ev : ServerEvent) : M unit :=
  broadcast room {[other]} ev.

(** socket.to(room).emit(ev): a broadcast that excepts the sender's own room *)
Definition socket_to_emit (socket : Socket) (room : string) (ev : ServerEvent) : M unit :=
  broadcast room {[id socket]} ev.

(** socket.join(room) *)
Definition socket_join (socket : Socket) (room : string) : M unit :=
  modify (set_sockets (alter (λ s, {| s_user := s_user s; rooms := {[room]} ∪ rooms s;
                                      currentDocument := currentDocument s |}) (id socket))).

(** socket.leave(room) *)
Definition socket_leave (socket : Socket) (room : string) : M unit :=
  modify (set_sockets (alter (λ s, {| s_user := s_user s; rooms := rooms s ∖ {[room]};
                                      currentDocument := currentDocument s |}) (id socket))).

(** socket.currentDocument = v *)
Definition socket_set_currentDocument (socket : Socket) (v : option string) : M unit :=
  modify (set_sockets (alter (λ s, {| s_user := s_user s; rooms := rooms s;
                                      currentDocument := v |}) (id socket))).

(** socket.currentDocument *)
Definition socket_currentDocument (socket : Socket) : M (option string) :=
  gets (λ w, sockets w !! id socket ≫= currentDocument).

(** *** Mongoose *)

(** Document.findById(documentId): the stored document, or null. *)
Definition Document_findById (env : Env) (documentId : string) : M (option Document) :=
  λ w, if findById_throws env then (Thrown, w)
       else (Returned (documents w !! documentId), w).

(** What save() leaves in the store for a path the handler has assigned.
    Mongoose tracks changes: a path assigned a value other than the one it
    was read with is modified and is written; a path assigned the value it
    was read with is not modified, and the store keeps what it holds by
    then. *)
Definition saved_path {A} `{EqDecision A} (read assigned stored : A) : A :=
  if decide (assigned = read) then stored else assigned.
Arguments saved_path : simpl never.

(** document.save(), where [read] is the document as findById gave it and
    [document] is that document after the handler has assigned [content],
    [version] and [lastEditedBy]: the modified paths among the three are
    written to the stored document; saving a document that is no longer
    stored rejects. *)
Definition document_save (env : Env) (documentId : string) (read document : Document) : M unit :=
  λ w, if save_throws env then (Thrown, w)
       else match documents w !! documentId with
            | None => (Thrown, w)
            | Some stored =>
                (Returned tt,
                 set_documents (<[documentId :=
                   {| title := title stored;
                      content := saved_path (content read) (content document) (content stored);
                      ownerId := ownerId stored; ownerUsername := ownerUsername stored;
                      collaborators := collaborators stored; isPublic := isPublic stored;
                      version := saved_path (version read) (version document) (version stored);
                      lastEditedBy := saved_path (lastEditedBy read) (lastEditedBy document)
                                        (lastEditedBy stored) |}]>) w)
            end.

(** *** Redis *)

(** `document:${documentId}:users` *)
Definition users_key (documentId : string) : string :=
  "document:" +:+ documentId +:+ ":users".

Definition redis_sAdd (env : Env) (key : string) (member : Z) : M unit :=
  λ w, if sAdd_throws env then (Thrown, w)
       else (Returned tt,
             set_redis (λ r, <[key := {[member]} ∪ default ∅ (r !! key)]> r) w).

(** A set that loses its last member is removed together with its key. *)
Definition redis_sRem (env : Env) (key : string) (member : Z) : M unit :=
  λ w, if sRem_throws env then (Thrown, w)
       else (Returned tt,
             set_redis (λ r, let s := default ∅ (r !! key) ∖ {[member]} in
                             if decide (s = ∅) then delete key r else <[key := s]> r) w).

Definition redis_sMembers (env : Env) (key : string) : M (list Z) :=
  λ w, if sMembers_throws env then (Thrown, w)
       else (Returned (elements (default ∅ (redis w !! key))), w).

(** redisPub.publish(channel, JSON.stringify(data)) *)
Definition redisPub_publish (env : Env) (m : RelayMessage) : M unit :=
  λ w, if publish_throws env then (Thrown, w)
       else (Returned tt, add_published m w).

(** *** console *)
Definition console_log (text : string) : M unit :=
  modify (add_console (console_log_line text)).

Definition console_error (text : string) : M unit :=
  modify (add_console (console_error_line text)).

(** *** this.activeUsers: a Map from documentId to a Set that is updated in place *)
Definition activeUsers_has (documentId : string) : M bool :=
  gets (λ w, bool_decide (is_Some (activeUsers w !! documentId))).

Definition activeUsers_set (documentId : string) (s : gset Z) : M unit :=
  modify (set_activeUsers (<[documentId := s]>)).

Definition activeUsers_delete (documentId : string) : M unit :=
  modify (set_activeUsers (delete documentId)).

(** this.activeUsers.get(documentId).add(userId) *)
Definition activeUsers_get_add (documentId : string) (userId : Z) : M unit :=
  modify (set_activeUsers (alter (λ s, {[userId]} ∪ s) documentId)).

(** this.activeUsers.get(documentId).delete(userId) *)
Definition activeUsers_get_delete (documentId : string) (userId : Z) : M unit :=
  modify (set_activeUsers (alter (λ s, s ∖ {[userId]}) documentId)).

(** this.activeUsers.get(documentId).size *)
Definition activeUsers_get_size (documentId : string) : M nat :=
  gets (λ w, size (default ∅ (activeUsers w !! documentId))).

(** ** CollaborationHandler *)

(** setupRedisSubscriptions: what this instance does with a message that
    arrives on one of the three channels. *)
Definition on_relay_message (m : RelayMessage) : M unit :=
  match m with
  | ch_document_updates data =>
      io_to_except_emit (u_documentId data) (u_socketId data) (ev_document_update data)
  | ch_document_cursor data =>
      io_to_except_emit (k_documentId data) (k_socketId data) (ev_cursor_move data)
  | ch_document_presence data =>
      io_to_emit (p_documentId data) (ev_user_presence data)
  end.

(** document.ownerId === userId || document.collaborators.some(...) || document.isPublic *)
Definition hasAccess (document : Document) (userId : Z) : bool :=
  bool_decide (ownerId document = userId)
  || existsb (λ c, bool_decide (c_userId c = userId)) (collaborators document)
  || isPublic document.

Definition handleDocumentJoin (env : Env) (socket : Socket) (documentId : string) : M unit :=
  try_catch
    (document ← Document_findById env documentId;
     match document with
     | None => socket_emit socket (ev_error "Document not found")
     | Some document =>
         let userId := userId (user socket) in
         if negb (hasAccess document userId)
         then socket_emit socket (ev_error "Access denied")
         else
           socket_join socket documentId;;
           socket_set_currentDocument socket (Some documentId);;
           has ← activeUsers_has documentId;
           (if negb has then activeUsers_set documentId ∅ else mret tt : M unit);;
           activeUsers_get_add documentId userId;;
           redis_sAdd env (users_key documentId) userId;;
           activeUserIds ← redis_sMembers env (users_key documentId);
           let presenceData :=
             {| p_documentId := documentId;
                p_userId := userId;
                p_username := username (user socket);
                p_action := "joined";
                p_activeUsers := activeUserIds |} in
           redisPub_publish env (ch_document_presence presenceData);;
           io_to_emit documentId (ev_user_presence presenceData);;
           socket_emit socket (ev_document_content
             {| d_documentId := documentId;
                d_content := content document;
                d_title := title document;
                d_version := version document |});;
           console_log ("User " +:+ username (user socket) +:+ " joined document " +:+ documentId)
     end)
    (console_error "Error in handleDocumentJoin:";;
     socket_emit socket (ev_error "Failed to join document")).

Definition handleDocumentLeave (env : Env) (socket : Socket) (documentId : string) : M unit :=
  try_catch
    (let userId := userId (user socket) in
     socket_leave socket documentId;;
     socket_set_currentDocument socket None;;
     has ← activeUsers_has documentId;
     (if (has : bool) then
        activeUsers_get_delete documentId userId;;
        n ← activeUsers_get_size documentId;
        if bool_decide (n = 0%nat) then activeUsers_delete documentId else mret tt
      else mret tt : M unit);;
     redis_sRem env (users_key documentId) userId;;
     activeUserIds ← redis_sMembers env (users_key documentId);
     let presenceData :=
       {| p_documentId := documentId;
          p_userId := userId;
          p_username := username (user socket);
          p_action := "left";
          p_activeUsers := activeUserIds |} in
     redisPub_publish env (ch_document_presence presenceData);;
     io_to_emit documentId (ev_user_presence presenceData);;
     console_log ("User " +:+ username (user socket) +:+ " left document " +:+ documentId))
    (console_error "Error in handleDocumentLeave:").

(** isOwner || (collaborator && ['write', 'admin'].includes(collaborator.permission)),
    where [collaborator] is the first entry of the list for this user. *)
Definition hasWriteAccess (document : Document) (userId : Z) : bool :=
  let isOwner := bool_decide (ownerId document = userId) in
  let collaborator := List.find (λ c, bool_decide (c_userId c = userId)) (collaborators document) in
  isOwner
  || match collaborator with
     | Some c => bool_decide (c_permission c ∈ [write; admin])
     | None => false
     end.

(** The part of handleDocumentEdit that runs once
    [await Document.findById(documentId)] has given [found]. *)
Definition edit_after_findById (env : Env) (socket : Socket) (documentId content : string)
    (found : option Document) : M unit :=
  match found with
  | None => socket_emit socket (ev_error "Document not found")
  | Some document =>
      let userId := userId (user socket) in
      if negb (hasWriteAccess document userId)
      then socket_emit socket (ev_error "No write permission")
      else
        let document' :=
          {| title := title document; content := content;
             ownerId := ownerId document; ownerUsername := ownerUsername document;
             collaborators := collaborators document; isPublic := isPublic document;
             version := version document + 1;
             lastEditedBy := Some {| e_userId := userId;
                                     e_username := username (user socket);
                                     e_timestamp := now env |} |} in
        document_save env documentId document document';;
        let updateData :=
          {| u_documentId := documentId;
             u_content := content;
             u_version := version document';
             u_userId := userId;
             u_username := username (user socket);
             u_timestamp := now_sent env;
             u_socketId := id socket |} in
        redisPub_publish env (ch_document_updates updateData);;
        socket_to_emit socket documentId (ev_document_update updateData);;
        console_log ("Document " +:+ documentId +:+ " updated by " +:+ username (user socket))
  end.

Definition edit_catch (socket : Socket) : M unit :=
  console_error "Error in handleDocumentEdit:";;
  socket_emit socket (ev_error "Failed to update document").

Definition handleDocumentEdit (env : Env) (socket : Socket) (documentId content : string) : M unit :=
  try_catch
    (found ← Document_findById env documentId;
     edit_after_findById env socket documentId content found)
    (edit_catch socket).

(** handleDocumentEdit from the point where it is resumed with the result
    [found] of its findById, which it got in an earlier state: other
    handlers may have run while it was waiting. *)
Definition handleDocumentEdit_resumed (env : Env) (socket : Socket) (documentId content : string)
    (found : option Document) : M unit :=
  try_catch (edit_after_findById env socket documentId content found) (edit_catch socket).

Definition handleCursorPosition (env : Env) (socket : Socket) (documentId : string) (position : Z) : M unit :=
  try_catch
    (let cursorData :=
       {| k_documentId := documentId;
          k_userId := userId (user socket);
          k_username := username (user socket);
          k_position := position;
          k_socketId := id socket |} in
     redisPub_publish env (ch_document_cursor cursorData);;
     socket_to_emit socket documentId (ev_cursor_move cursorData))
    (console_error "Error in handleCursorPosition:").

Definition handleTypingIndicator (env : Env) (socket : Socket) (documentId : string) (isTyping : bool) : M unit :=
  try_catch
    (socket_to_emit socket documentId (ev_user_typing
       {| t_userId := userId (user socket);
          t_username := username (user socket);
          t_isTyping := isTyping |}))
    (console_error "Error in handleTypingIndicator:").

(** if (socket.currentDocument): a non-empty string *)
Definition handleDisconnection (env : Env) (socket : Socket) : M unit :=
  try_catch
    (cur ← socket_currentDocument socket;
     match cur with
     | Some documentId =>
         if bool_decide (documentId ≠ "") then handleDocumentLeave env socket documentId
         else mret tt
     | None => mret tt
     end)
    (console_error "Error in handleDisconnection:").

(** handleConnection: one log line; the listeners it registers are
    [handleClientEvent] below. *)
Definition handleConnection (socket : Socket) : M unit :=
  console_log ("Socket connected: " +:+ id socket +:+
               " (User: " +:+ username (user socket) +:+ ")").

(** ** The server's listeners (index.js of the collaboration service) *)

(** io.on('connection', ...); the template prints the user id, an
    integer, in decimal. *)
Definition on_connection (socket : Socket) : M unit :=
  console_log ("User connected: " +:+ username (user socket) +:+
               " (" +:+ pretty (userId (user socket)) +:+ ")");;
  handleConnection socket.

(** socket.on('disconnect', ...) *)
Definition on_disconnect (env : Env) (socket : Socket) : M unit :=
  console_log ("User disconnected: " +:+ username (user socket));;
  handleDisconnection env socket.

(** ** The instance as a transition system *)

(** Events a connected client sends (handleConnection registers one
    listener for each). *)
Inductive ClientEvent :=
  | document_join (documentId : string)
  | document_leave (documentId : string)
  | document_edit (documentId content : string)
  | cursor_position (documentId : string) (position : Z)
  | user_typing (documentId : string) (isTyping : bool).

Definition handleClientEvent (env : Env) (socket : Socket) (e : ClientEvent) : M unit :=
  match e with
  | document_join documentId => handleDocumentJoin env socket documentId
  | document_leave documentId => handleDocumentLeave env socket documentId
  | document_edit documentId content => handleDocumentEdit env socket documentId content
  | cursor_position documentId position => handleCursorPosition env socket documentId position
  | user_typing documentId isTyping => handleTypingIndicator env socket documentId isTyping
  end.

Inductive Step :=
  | connection (socket : Socket)
      (* an authenticated socket connects; Socket.IO puts it in its own room,
         then the 'connection' listener runs *)
  | from_client (env : Env) (sid : string) (e : ClientEvent)
      (* a connected socket sends an event *)
  | disconnect (env : Env) (sid : string)
      (* Socket.IO takes the socket out of all rooms, then the
         'disconnect' listener runs *)
  | relay_delivers (m : RelayMessage)
      (* a message arrives on a subscribed channel *)
  | outside (docs : gmap string Document) (r : gmap string (gset Z)).
      (* the document service and peer instances change the shared stores *)

Definition step (s : Step) (w : World) : World :=
  match s with
  | connection socket =>
      match sockets w !! id socket with
      | Some _ => w
      | None =>
          let w := set_sockets (<[id socket := {| s_user := user socket;
                                                  rooms := {[id socket]};
                                                  currentDocument := None |}]>) w in
          exec (on_connection socket) w
      end
  | from_client env sid e =>
      match sockets w !! sid with
      | Some s => exec (handleClientEvent env {| id := sid; user := s_user s |} e) w
      | None => w
      end
  | disconnect env sid =>
      match sockets w !! sid with
      | Some s =>
          let socket := {| id := sid; user := s_user s |} in
          let w := set_sockets (alter (λ s, {| s_user := s_user s; rooms := ∅;
                                               currentDocument := currentDocument s |}) sid) w in
          let w := exec (on_disconnect env socket) w in
          set_sockets (delete sid) w
      | None => w
      end
  | relay_delivers m => exec (on_relay_message m) w
  | outside docs r => set_redis (λ _, r) (set_documents (λ _, docs) w)
  end.

Definition run (tr : list Step) (w : World) : World := foldl (λ w s, step s w) w tr.

(** A freshly started instance: no sockets, an empty activeUsers map;
    the traces start after the lines logged during start-up. *)
Definition initial (docs : gmap string Document) (r : gmap string (gset Z)) : World :=
  {| sockets := ∅; activeUsers := ∅; documents := docs; redis := r;
     emitted := []; published := []; console := [] |}.

(** ** Concrete data used to run the handlers *)
Module Scenario.
(** Every awaited call succeeds. *)
Definition calm : Env :=
  {| findById_throws := false; save_throws := false; sAdd_throws := false;
     sRem_throws := false; sMembers_throws := false; publish_throws := false;
     now := 1700000000; now_sent := 1700000001 |}.

Definition redis_down : Env :=
  {| findById_throws := false; save_throws := false; sAdd_throws := true;
     sRem_throws := true; sMembers_throws := true; publish_throws := true;
     now := 1700000000; now_sent := 1700000001 |}.

Definition relay_down : Env :=
  {| findById_throws := false; save_throws := false; sAdd_throws := false;
     sRem_throws := false; sMembers_throws := false; publish_throws := true;
     now := 1700000000; now_sent := 1700000001 |}.

Definition alice : Socket := {| id := "sockA"; user := {| userId := 1; username := "alice" |} |}.
Definition bob : Socket := {| id := "sockB"; user := {| userId := 2; username := "bob" |} |}.
Definition carol : Socket := {| id := "sockC"; user := {| userId := 3; username := "carol" |} |}.

(** A private document of alice, with bob as a reader. *)
Definition notes : Document :=
  {| title := "Notes"; content := ""; ownerId := 1; ownerUsername := "alice";
     collaborators := [ {| c_userId := 2; c_username := "bob"; c_permission := read |} ];
     isPublic := false; version := 1; lastEditedBy := None |}.

(** A public document of alice, with bob as a writer. *)
Definition plan : Document :=
  {| title := "Plan"; content := "draft"; ownerId := 1; ownerUsername := "alice";
     collaborators := [ {| c_userId := 2; c_username := "bob"; c_permission := write |} ];
     isPublic := true; version := 7; lastEditedBy := None |}.

Definition store : gmap string Document := {[ "notes" := notes; "plan" := plan ]}.

(** alice, bob and carol are connected; nobody has joined anything. *)
Definition connected : World :=
  run [connection alice; connection bob; connection carol] (initial store ∅).

(** alice and bob have joined "plan". *)
Definition in_plan : World :=
  run [from_client calm "sockA" (document_join "plan");
       from_client calm "sockB" (document_join "plan")] connected.
End Scenario.

(** ** Vocabulary of the statements *)

(** The request was answered with one 'error' event to its sender and
    nothing else happened: no socket, map, store or channel was touched. *)
Definition rejected_with (message : string) (socket : Socket) (w w' : World) : Prop :=
  sockets w' = sockets w ∧ activeUsers w' = activeUsers w ∧
  documents w' = documents w ∧ redis w' = redis w ∧
  published w' = published w ∧
  emitted w' = emitted w ++ [(id socket, ev_error message)].

(** The identity may write: it owns the document, or the document lists it
    as a collaborator with write or admin permission. *)
Definition may_write (document : Document) (u : Z) : Prop :=
  ownerId document = u ∨
  ∃ c, c ∈ collaborators document ∧ c_userId c = u ∧
       (c_permission c = write ∨ c_permission c = admin).

(** What a join does to the sender's socket object: one more room, and
    currentDocument overwritten. *)
Definition joined (documentId : string) (s : SocketState) : SocketState :=
  {| s_user := s_user s; rooms := {[documentId]} ∪ rooms s;
     currentDocument := Some documentId |}.

(** No key of the activeUsers map holds an empty set. *)
Definition no_empty_entry (m : gmap string (gset Z)) : Prop :=
  ∀ documentId s, m !! documentId = Some s → s ≠ ∅.

(** Every connected socket is in the room named by its id. *)
Definition in_own_room (w : World) : Prop :=
  ∀ sid s, sockets w !! sid = Some s → sid ∈ rooms s.

(** The step is a 'document:leave' that names the sender's own socket id. *)
Definition leaves_own_room (s : Step) : Prop :=
  match s with
  | from_client _ sid (document_leave documentId) => documentId = sid
  | _ => False
  end.

(** ** The server around the handler *)

(** socket.handshake: the two places a client can put its token. *)
Record Handshake := {
  auth_token : option string;
  query_token : option string
}.

(** A token is truthy when it is there and is not the empty string. *)
Definition truthy (token : option string) : bool :=
  match token with
  | Some t => bool_decide (t ≠ "")
  | None => false
  end.

(** What the middleware passes to next(): nothing (and socket.user is set),
    or an Error. *)
Inductive MiddlewareResult :=
  | next_accepted (decoded : User)
  | next_error (message : string).

(** The io.use middleware; [verify] is jwt.verify with the server's
    secret, which gives the decoded payload or throws. *)
Definition authenticate (verify : string → option User) (h : Handshake) : MiddlewareResult :=
  let token := if truthy (auth_token h) then auth_token h else query_token h in
  if negb (truthy token) then next_error "Authentication error: No token provided"
  else match token ≫= verify with
       | Some decoded => next_accepted decoded
       | None => next_error "Authentication error: Invalid token"
       end.

(** What a leave does to the sender's socket object. *)
Definition left_room (documentId : string) (s : SocketState) : SocketState :=
  {| s_user := s_user s; rooms := rooms s ∖ {[documentId]}; currentDocument := None |}.

(** The activeUsers map after this.activeUsers.get(documentId).delete(userId)
    and the removal of an emptied entry. *)
Definition without_user (documentId : string) (u : Z) (m : gmap string (gset Z)) :
    gmap string (gset Z) :=
  match m !! documentId with
  | Some s => if decide (s ∖ {[u]} = ∅) then delete documentId m
              else <[documentId := s ∖ {[u]}]> m
  | None => m
  end.

(** A socket's currentDocument, when set, is a room the socket is in. *)
Definition current_document_is_a_room (w : World) : Prop :=
  ∀ sid s documentId,
    sockets w !! sid = Some s → currentDocument s = Some documentId → documentId ∈ rooms s.

(** The step is made by the document service or a peer, not by this instance. *)
Definition is_outside (s : Step) : Prop :=
  match s with
  | outside _ _ => True
  | _ => False
  end.

(** The fields of a stored document that no handler assigns. *)
Definition same_metadata (d d' : Document) : Prop :=
  title d' = title d ∧ ownerId d' = ownerId d ∧ ownerUsername d' = ownerUsername d ∧
  collaborators d' = collaborators d ∧ isPublic d' = isPublic d.

Module Cases.
(** A document that lists bob twice: first as a reader, then as a writer. *)
Definition twice : Document :=
  {| title := "Twice"; content := ""; ownerId := 1; ownerUsername := "alice";
     collaborators := [ {| c_userId := 3; c_username := "carol"; c_permission := admin |};
                        {| c_userId := 2; c_username := "bob"; c_permission := read |};
                        {| c_userId := 2; c_username := "bob"; c_permission := write |} ];
     isPublic := false; version := 1; lastEditedBy := None |}.

Definition save_down : Env :=
  {| findById_throws := false; save_throws := true; sAdd_throws := false;
     sRem_throws := false; sMembers_throws := false; publish_throws := false;
     now := 1700000000; now_sent := 1700000001 |}.

(** "plan" after alice's edit "from alice". *)
Definition plan_v8 : Document :=
  {| title := "Plan"; content := "from alice"; ownerId := 1; ownerUsername := "alice";
     collaborators := [ {| c_userId := 2; c_username := "bob"; c_permission := write |} ];
     isPublic := true; version := 8;
     lastEditedBy := Some {| e_userId := 1; e_username := "alice";
                             e_timestamp := 1700000000 |} |}.

(** "plan" after two more edits, the second one by bob. *)
Definition plan_v9 : Document :=
  {| title := "Plan"; content := "two"; ownerId := 1; ownerUsername := "alice";
     collaborators := [ {| c_userId := 2; c_username := "bob"; c_permission := write |} ];
     isPublic := true; version := 9;
     lastEditedBy := Some {| e_userId := 2; e_username := "bob";
                             e_timestamp := 1700000000 |} |}.

Definition edited_twice : World :=
  run [from_client Scenario.calm "sockA" (document_edit "plan" "one");
       from_client Scenario.calm "sockB" (document_edit "plan" "two")] Scenario.in_plan.

(** jwt.verify for a server that has issued two tokens. *)
Definition verify (token : string) : option User :=
  if bool_decide (token = "token-of-alice") then Some (user Scenario.alice)
  else if bool_decide (token = "token-of-bob") then Some (user Scenario.bob)
  else None.
End Cases.

(** [version += 1] on a Number gives the next integer for the integers
    from -2^53 to 2^53 - 1; this is the range in which the model's [+ 1]
    is the code's. *)
Definition increments_exactly (v : Z) : Prop := - 2 ^ 53 ≤ v < 2 ^ 53.

(** * Properties *)

Ltac unfold_handler :=
  unfold exec, handleDocumentJoin, handleDocumentLeave, handleDocumentEdit,
    handleDocumentEdit_resumed, edit_after_findById, edit_catch,
    handleCursorPosition, handleTypingIndicator, handleDisconnection,
    on_relay_message, on_connection, on_disconnect, handleConnection,
    try_catch, mbind, mret, M_bind, M_ret, bind, ret,
    Document_findById, document_save, redis_sAdd, redis_sRem, redis_sMembers,
    redisPub_publish, socket_emit, io_to_emit, io_to_except_emit, socket_to_emit,
    broadcast, socket_join, socket_leave, socket_set_currentDocument,
    socket_currentDocument, console_log, console_error,
    activeUsers_has, activeUsers_set, activeUsers_delete, activeUsers_get_add,
    activeUsers_get_delete, activeUsers_get_size, modify, gets.

(** ** The listeners *)

Lemma on_connection_exec (socket : Socket) (w : World) :
  exec (on_connection socket) w =
  add_console (console_log_line ("Socket connected: " +:+ id socket +:+
                                 " (User: " +:+ username (user socket) +:+ ")"))
    (add_console (console_log_line ("User connected: " +:+ username (user socket) +:+
                                    " (" +:+ pretty (userId (user socket)) +:+ ")")) w).
Proof. reflexivity. Qed.

Lemma on_disconnect_exec (env : Env) (socket : Socket) (w : World) :
  exec (on_disconnect env socket) w =
  exec (handleDisconnection env socket)
    (add_console (console_log_line ("User disconnected: " +:+ username (user socket))) w).
Proof. reflexivity. Qed.

(** ** Access checks *)

Lemma some_collaborator (u : Z) (l : list Collaborator) :
  existsb (λ c, bool_decide (c_userId c = u)) l = true ↔ ∃ c, c ∈ l ∧ c_userId c = u.
Proof.
  rewrite existsb_exists. split; intros (c & Hin & Hc); exists c.
  - split; [by apply list_elem_of_In | by apply bool_decide_eq_true in Hc].
  - split; [by apply list_elem_of_In | by apply bool_decide_eq_true].
Qed.

Lemma hasAccess_false (document : Document) (u : Z) :
  hasAccess document u = false ↔
  ownerId document ≠ u ∧ (∀ c, c ∈ collaborators document → c_userId c ≠ u) ∧
  isPublic document = false.
Proof.
  unfold hasAccess. rewrite !orb_false_iff, bool_decide_eq_false.
  rewrite <- not_true_iff_false, some_collaborator. naive_solver.
Qed.

Lemma hasWriteAccess_may_write (document : Document) (u : Z) :
  hasWriteAccess document u = true → may_write document u.
Proof.
  unfold hasWriteAccess, may_write. intros [Ho | Hc]%orb_true_iff.
  - left. by apply bool_decide_eq_true in Ho.
  - right. destruct (List.find _ _) as [c|] eqn:Hfind; [|done].
    apply find_some in Hfind as [Hin Hu]. exists c.
    apply list_elem_of_In in Hin. apply bool_decide_eq_true in Hu, Hc.
    split_and!; [done..|]. set_solver.
Qed.

Lemma not_may_write (document : Document) (u : Z) :
  ¬ may_write document u → hasWriteAccess document u = false.
Proof.
  intros Hno. apply not_true_iff_false. intros H. by apply Hno, hasWriteAccess_may_write.
Qed.

(** ** Join: rejected requests *)

(** C5. A join of a document that is not stored is answered with
    'Document not found', and a join by an identity that is neither the
    owner nor a collaborator of a non-public document is answered with
    'Access denied'; in both cases the sockets (hence the connection's
    rooms and currentDocument), the activeUsers map and the presence store
    are exactly as before. *)
Theorem join_not_found_or_denied (env : Env) (socket : Socket) (documentId : string) (w : World) :
  findById_throws env = false →
  let w' := exec (handleDocumentJoin env socket documentId) w in
  (documents w !! documentId = None →
     rejected_with "Document not found" socket w w') ∧
  (∀ document,
     documents w !! documentId = Some document →
     ownerId document ≠ userId (user socket) →
     (∀ c, c ∈ collaborators document → c_userId c ≠ userId (user socket)) →
     isPublic document = false →
     rejected_with "Access denied" socket w w').
Proof.
  intros Hfind w'. subst w'. split.
  - intros Hnone. unfold_handler. rewrite Hfind, Hnone. by cbn.
  - intros document Hsome Howner Hcollab Hpublic.
    assert (hasAccess document (userId (user socket)) = false) as Hacc
      by (by apply hasAccess_false).
    unfold_handler. rewrite Hfind, Hsome, Hacc. by cbn.
Qed.

Lemma join_not_found_or_denied_witness :
  rejected_with "Document not found" Scenario.carol Scenario.connected
    (exec (handleDocumentJoin Scenario.calm Scenario.carol "gone") Scenario.connected) ∧
  rejected_with "Access denied" Scenario.carol Scenario.connected
    (exec (handleDocumentJoin Scenario.calm Scenario.carol "notes") Scenario.connected).
Proof.
  split.
  - apply (join_not_found_or_denied Scenario.calm Scenario.carol "gone" Scenario.connected);
      reflexivity.
  - apply (join_not_found_or_denied Scenario.calm Scenario.carol "notes" Scenario.connected
             eq_refl) with (document := Scenario.notes).
    + reflexivity.
    + simpl. lia.
    + intros c Hc. apply list_elem_of_singleton in Hc. subst c. simpl. lia.
    + reflexivity.
Defined.

(** ** Edit: write permission *)

(** C4. An edit changes the stored documents only when the sender is the
    owner or a collaborator with write or admin permission; for any other
    identity (a collaborator with read permission included) the edit of an
    existing document is answered with 'No write permission' and the
    stored document, with its content, version and lastEditedBy, is as
    before. *)
Theorem edit_needs_write_permission (env : Env) (socket : Socket)
    (documentId content : string) (w : World) :
  let w' := exec (handleDocumentEdit env socket documentId content) w in
  (documents w' ≠ documents w →
     ∃ document, documents w !! documentId = Some document ∧
                 may_write document (userId (user socket))) ∧
  (∀ document,
     findById_throws env = false →
     documents w !! documentId = Some document →
     ¬ may_write document (userId (user socket)) →
     rejected_with "No write permission" socket w w').
Proof.
  intros w'. subst w'. split.
  - unfold_handler. cbn -[hasWriteAccess].
    repeat case_match; simplify_eq/=; try done.
    all: intros _; eexists; split; [done|].
    all: apply hasWriteAccess_may_write; by apply negb_false_iff.
  - intros document Hfind Hsome Hno. apply not_may_write in Hno.
    unfold_handler. rewrite Hfind, Hsome, Hno. by cbn.
Qed.

Lemma edit_needs_write_permission_witness :
  (∃ document, Scenario.store !! "notes" = Some document ∧ may_write document 1) ∧
  rejected_with "No write permission" Scenario.bob Scenario.connected
    (exec (handleDocumentEdit Scenario.calm Scenario.bob "notes" "mine now") Scenario.connected).
Proof.
  split.
  - apply (edit_needs_write_permission Scenario.calm Scenario.alice "notes" "hello"
             Scenario.connected).
    intros Heq. apply (f_equal (λ m, version <$> m !! "notes")) in Heq.
    vm_compute in Heq. discriminate.
  - apply (edit_needs_write_permission Scenario.calm Scenario.bob "notes" "mine now"
             Scenario.connected) with (document := Scenario.notes).
    + reflexivity.
    + reflexivity.
    + intros [Howner | (c & Hc & _ & Hperm)].
      * simpl in Howner. lia.
      * apply list_elem_of_singleton in Hc. subst c. simpl in Hperm. by destruct Hperm.
Defined.

(** ** Edit: what an accepted edit does *)

(** When nothing has written to the store since the read, the save leaves
    the assigned value there, modified or not. *)
Lemma saved_path_same {A} `{EqDecision A} (read assigned : A) :
  saved_path read assigned read = assigned.
Proof. unfold saved_path. by case_decide. Qed.

(** The version is always a modified path. *)
Lemma saved_path_version (read stored : Z) : saved_path read (read + 1) stored = read + 1.
Proof. unfold saved_path. case_decide; [lia | done]. Qed.

(** The stored document after an edit of [document] by [socket]. *)
Lemma edit_persists (env : Env) (socket : Socket) (documentId newContent : string)
    (w : World) (document : Document) :
  findById_throws env = false →
  save_throws env = false →
  documents w !! documentId = Some document →
  hasWriteAccess document (userId (user socket)) = true →
  let w' := exec (handleDocumentEdit env socket documentId newContent) w in
  ∃ stored,
    documents w' = <[documentId := stored]> (documents w) ∧
    content stored = newContent ∧
    version stored = version document + 1 ∧
    lastEditedBy stored = Some {| e_userId := userId (user socket);
                                  e_username := username (user socket);
                                  e_timestamp := now env |} ∧
    ownerId stored = ownerId document ∧
    collaborators stored = collaborators document.
Proof.
  intros Hfind Hsave Hsome Hacc. unfold_handler.
  rewrite Hfind, Hsome, Hacc, Hsave. cbn. rewrite Hsome.
  destruct (publish_throws env); cbn; eexists; (split; [reflexivity|]); cbn;
    by rewrite !saved_path_same.
Qed.

(** Every call of the handler leaves the stored documents alone or writes
    the version it read, plus one. *)
Lemma edit_version_step (env : Env) (socket : Socket) (documentId content : string) (w : World) :
  let w' := exec (handleDocumentEdit env socket documentId content) w in
  documents w' = documents w ∨
  ∃ document stored,
    documents w !! documentId = Some document ∧
    documents w' = <[documentId := stored]> (documents w) ∧
    version stored = version document + 1.
Proof.
  unfold_handler. cbn -[hasWriteAccess].
  repeat case_match; simplify_eq/=; auto.
  all: right; eexists _, _; split_and!; [done..|]; cbn; by rewrite saved_path_same.
Qed.

Lemma handleDocumentEdit_resumed_eq (env : Env) (socket : Socket)
    (documentId newContent : string) (w : World) :
  findById_throws env = false →
  handleDocumentEdit env socket documentId newContent w =
  handleDocumentEdit_resumed env socket documentId newContent (documents w !! documentId) w.
Proof.
  intros Hfind. unfold handleDocumentEdit, handleDocumentEdit_resumed, try_catch,
    mbind, M_bind, bind, Document_findById.
  by rewrite Hfind.
Qed.

(** What a fully successful edit sends: the message, and who gets it. *)
Lemma edit_broadcasts (env : Env) (socket : Socket) (documentId newContent : string)
    (w : World) (document : Document) :
  findById_throws env = false →
  save_throws env = false →
  publish_throws env = false →
  documents w !! documentId = Some document →
  hasWriteAccess document (userId (user socket)) = true →
  let w' := exec (handleDocumentEdit env socket documentId newContent) w in
  let updateData :=
    {| u_documentId := documentId; u_content := newContent;
       u_version := version document + 1;
       u_userId := userId (user socket); u_username := username (user socket);
       u_timestamp := now_sent env; u_socketId := id socket |} in
  sockets w' = sockets w ∧ activeUsers w' = activeUsers w ∧ redis w' = redis w ∧
  published w' = published w ++ [ch_document_updates updateData] ∧
  emitted w' = emitted w ++
    ((λ sid, (sid, ev_document_update updateData)) <$> recipients documentId {[id socket]} w).
Proof.
  intros Hfind Hsave Hpub Hsome Hacc. unfold_handler.
  rewrite Hfind, Hsome, Hacc, Hsave. cbn. rewrite Hsome, Hpub. by cbn.
Qed.

(** C1 (as stated, refuted). alice owns "notes" and is connected but has
    joined nothing: her socket is in no room but its own and its
    currentDocument is unset.  Her edit is not answered with an error: the
    stored document gets the new content and version 2, and the update is
    published to the relay. *)
Lemma edit_without_join_is_accepted :
  let w := Scenario.connected in
  let w' := exec (handleDocumentEdit Scenario.calm Scenario.alice "notes" "hello") w in
  sockets w !! "sockA" =
    Some {| s_user := user Scenario.alice; rooms := {["sockA"]}; currentDocument := None |} ∧
  (content <$> documents w' !! "notes") = Some "hello" ∧
  (version <$> documents w' !! "notes") = Some 2 ∧
  emitted w' = [] ∧
  published w' =
    [ch_document_updates
       {| u_documentId := "notes"; u_content := "hello"; u_version := 2;
          u_userId := 1; u_username := "alice";
          u_timestamp := 1700000001; u_socketId := "sockA" |}].
Proof. vm_compute. by split_and!. Qed.

(** C1 (amended). The handler never looks at the sender's rooms or
    currentDocument: for every state of the sockets, an edit of an
    existing document by an identity with write access is persisted
    (new content, version plus one), published to the relay and broadcast to
    the other sockets in the room, and no error is sent. *)
Theorem edit_accepted_without_join_check (env : Env) (socket : Socket)
    (documentId newContent : string) (w : World) (document : Document) :
  findById_throws env = false →
  save_throws env = false →
  publish_throws env = false →
  documents w !! documentId = Some document →
  hasWriteAccess document (userId (user socket)) = true →
  let w' := exec (handleDocumentEdit env socket documentId newContent) w in
  let updateData :=
    {| u_documentId := documentId; u_content := newContent;
       u_version := version document + 1;
       u_userId := userId (user socket); u_username := username (user socket);
       u_timestamp := now_sent env; u_socketId := id socket |} in
  (∃ stored, documents w' = <[documentId := stored]> (documents w) ∧
             content stored = newContent ∧
             version stored = version document + 1) ∧
  published w' = published w ++ [ch_document_updates updateData] ∧
  emitted w' = emitted w ++
    ((λ sid, (sid, ev_document_update updateData)) <$> recipients documentId {[id socket]} w).
Proof.
  intros Hfind Hsave Hpub Hsome Hacc w' updateData. split.
  - destruct (edit_persists env socket documentId newContent w document)
      as (stored & ? & ? & ? & _); eauto.
  - destruct (edit_broadcasts env socket documentId newContent w document)
      as (_ & _ & _ & ? & ?); eauto.
Qed.

Lemma edit_accepted_without_join_check_witness :
  let w' := exec (handleDocumentEdit Scenario.calm Scenario.alice "notes" "hello")
              Scenario.connected in
  (∃ stored, documents w' = <["notes" := stored]> (documents Scenario.connected) ∧
             content stored = "hello" ∧ version stored = 1 + 1) ∧
  published w' = published Scenario.connected ++
    [ch_document_updates
       {| u_documentId := "notes"; u_content := "hello"; u_version := 1 + 1;
          u_userId := 1; u_username := "alice";
          u_timestamp := 1700000001; u_socketId := "sockA" |}] ∧
  emitted w' = emitted Scenario.connected ++
    ((λ sid, (sid, ev_document_update
       {| u_documentId := "notes"; u_content := "hello"; u_version := 1 + 1;
          u_userId := 1; u_username := "alice";
          u_timestamp := 1700000001; u_socketId := "sockA" |}))
       <$> recipients "notes" {["sockA"]} Scenario.connected).
Proof.
  exact (edit_accepted_without_join_check Scenario.calm Scenario.alice "notes" "hello"
           Scenario.connected Scenario.notes eq_refl eq_refl eq_refl eq_refl eq_refl).
Defined.

(** ** Edit: the relay publish fails *)

(** C7 (as stated, refuted). alice and bob are both in room "plan" on this
    instance.  alice's edit is saved (version 7 becomes 8), the publish
    rejects: alice is sent 'Failed to update document' and bob is sent
    nothing. *)
Lemma edit_publish_failure_reaches_the_client :
  let w := Scenario.in_plan in
  let w' := exec (handleDocumentEdit Scenario.relay_down Scenario.alice "plan" "v8") w in
  (rooms <$> sockets w !! "sockB") = Some {["sockB"; "plan"]} ∧
  (version <$> documents w !! "plan") = Some 7 ∧
  (version <$> documents w' !! "plan") = Some 8 ∧
  emitted w' = emitted w ++ [("sockA", ev_error "Failed to update document")].
Proof. vm_compute. by split_and!. Qed.

(** C7 (amended). When the save succeeds and the publish to the relay
    fails, the edit stays persisted, the failure is logged, the sender is
    sent 'Failed to update document', and no 'document:update' is sent to
    any local socket. *)
Theorem edit_publish_failure (env : Env) (socket : Socket)
    (documentId newContent : string) (w : World) (document : Document) :
  findById_throws env = false →
  save_throws env = false →
  publish_throws env = true →
  documents w !! documentId = Some document →
  hasWriteAccess document (userId (user socket)) = true →
  let w' := exec (handleDocumentEdit env socket documentId newContent) w in
  (∃ stored, documents w' = <[documentId := stored]> (documents w) ∧
             content stored = newContent ∧
             version stored = version document + 1) ∧
  published w' = published w ∧
  console w' = console w ++ [console_error_line "Error in handleDocumentEdit:"] ∧
  emitted w' = emitted w ++ [(id socket, ev_error "Failed to update document")].
Proof.
  intros Hfind Hsave Hpub Hsome Hacc w'. split.
  - destruct (edit_persists env socket documentId newContent w document)
      as (stored & ? & ? & ? & _); eauto.
  - subst w'. unfold_handler.
    rewrite Hfind, Hsome, Hacc, Hsave. cbn. rewrite Hsome, Hpub. by cbn.
Qed.

Lemma edit_publish_failure_witness :
  let w' := exec (handleDocumentEdit Scenario.relay_down Scenario.alice "plan" "v8")
              Scenario.in_plan in
  (∃ stored, documents w' = <["plan" := stored]> (documents Scenario.in_plan) ∧
             content stored = "v8" ∧ version stored = 7 + 1) ∧
  published w' = published Scenario.in_plan ∧
  console w' = console Scenario.in_plan ++ [console_error_line "Error in handleDocumentEdit:"] ∧
  emitted w' = emitted Scenario.in_plan ++ [("sockA", ev_error "Failed to update document")].
Proof.
  exact (edit_publish_failure Scenario.relay_down Scenario.alice "plan" "v8"
           Scenario.in_plan Scenario.plan eq_refl eq_refl eq_refl eq_refl eq_refl).
Defined.

(** ** Edit: versions *)

(** An edit resumed with the document it read, in a state in which the
    document is stored and the save is accepted. *)
Lemma resumed_edit_stores (env : Env) (socket : Socket) (documentId newContent : string)
    (found stored : Document) (w : World) :
  save_throws env = false →
  documents w !! documentId = Some stored →
  hasWriteAccess found (userId (user socket)) = true →
  let w' := exec (handleDocumentEdit_resumed env socket documentId newContent (Some found)) w in
  ∃ stored', documents w' !! documentId = Some stored' ∧
             version stored' = version found + 1 ∧
             content stored' = saved_path (content found) newContent (content stored) ∧
             same_metadata stored stored'.
Proof.
  intros Hsave Hstored Hacc. unfold_handler. rewrite Hacc, Hsave. cbn. rewrite Hstored.
  destruct (publish_throws env); cbn; rewrite lookup_insert_eq; eexists;
    (split; [done|]); cbn; by rewrite saved_path_version.
Qed.

(** C9 (as stated, refuted). alice and bob both send an edit of "plan"
    (version 7); both handlers get the document from findById before
    either of them saves.  alice's save stores version 8, and bob's save,
    which comes later, stores version 8 again. *)
Lemma overlapping_edits_repeat_a_version :
  let w0 := Scenario.in_plan in
  let found := documents w0 !! "plan" in
  let w1 := exec (handleDocumentEdit_resumed Scenario.calm Scenario.alice "plan" "from alice" found) w0 in
  let w2 := exec (handleDocumentEdit_resumed Scenario.calm Scenario.bob "plan" "from bob" found) w1 in
  Document_findById Scenario.calm "plan" w0 = (Returned found, w0) ∧
  (version <$> found) = Some 7 ∧
  ((λ d, (content d, version d)) <$> documents w1 !! "plan") = Some ("from alice", 8) ∧
  ((λ d, (content d, version d)) <$> documents w2 !! "plan") = Some ("from bob", 8).
Proof. vm_compute. by split_and!. Qed.

(** C9 (amended). Every successful edit, one that passes the write check
    and whose save is accepted, stores the version it read plus one; the
    handler computes it, the store does not.  So for two successful edits
    of a document: when the later one's read gives the document as the
    earlier one's save left it, the later one stores exactly one more than
    the earlier one, a strictly greater version, whatever is written to the
    document between the later one's read and its save; and when both read
    the same stored document, as they do when both read before either
    saves, both store the same version.  The versions read are in the
    range in which [version += 1] is exact. *)
Theorem edits_store_the_version_read_plus_one (env1 env2 : Env) (socket1 socket2 : Socket)
    (documentId content1 content2 : string)
    (read1 save1 read2 save2 : World) (found1 found2 stored1 stored2 : Document) :
  Document_findById env1 documentId read1 = (Returned (Some found1), read1) →
  hasWriteAccess found1 (userId (user socket1)) = true →
  save_throws env1 = false →
  documents save1 !! documentId = Some stored1 →
  increments_exactly (version found1) →
  Document_findById env2 documentId read2 = (Returned (Some found2), read2) →
  hasWriteAccess found2 (userId (user socket2)) = true →
  save_throws env2 = false →
  documents save2 !! documentId = Some stored2 →
  increments_exactly (version found2) →
  let after1 :=
    exec (handleDocumentEdit_resumed env1 socket1 documentId content1 (Some found1)) save1 in
  let after2 :=
    exec (handleDocumentEdit_resumed env2 socket2 documentId content2 (Some found2)) save2 in
  ∃ d1 d2,
    documents after1 !! documentId = Some d1 ∧
    documents after2 !! documentId = Some d2 ∧
    version d1 = version found1 + 1 ∧
    version d2 = version found2 + 1 ∧
    (documents read2 !! documentId = documents after1 !! documentId →
       version d2 = version d1 + 1 ∧ version d1 < version d2) ∧
    (documents read2 !! documentId = documents read1 !! documentId →
       version d2 = version d1).
Proof.
  intros Hread1 Hacc1 Hsave1 Hstored1 _ Hread2 Hacc2 Hsave2 Hstored2 _ after1 after2.
  assert (documents read1 !! documentId = Some found1) as Hfound1.
  { unfold Document_findById in Hread1. destruct (findById_throws env1); congruence. }
  assert (documents read2 !! documentId = Some found2) as Hfound2.
  { unfold Document_findById in Hread2. destruct (findById_throws env2); congruence. }
  destruct (resumed_edit_stores env1 socket1 documentId content1 found1 stored1 save1)
    as (d1 & Hd1 & Hv1 & _); [done..|].
  destruct (resumed_edit_stores env2 socket2 documentId content2 found2 stored2 save2)
    as (d2 & Hd2 & Hv2 & _); [done..|].
  fold after1 in Hd1. fold after2 in Hd2.
  exists d1, d2. split_and!; [done..| |].
  - rewrite Hfound2, Hd1. intros [= ->]. lia.
  - rewrite Hfound2, Hfound1. intros [= ->]. lia.
Qed.

Lemma edits_store_the_version_read_plus_one_witness :
  let after1 :=
    exec (handleDocumentEdit_resumed Scenario.calm Scenario.alice "plan" "from alice"
            (Some Scenario.plan)) Scenario.in_plan in
  let after2 :=
    exec (handleDocumentEdit_resumed Scenario.calm Scenario.bob "plan" "from bob"
            (Some Cases.plan_v8)) after1 in
  ∃ d1 d2,
    documents after1 !! "plan" = Some d1 ∧
    documents after2 !! "plan" = Some d2 ∧
    version d1 = 7 + 1 ∧
    version d2 = 8 + 1 ∧
    (documents after1 !! "plan" = documents after1 !! "plan" →
       version d2 = version d1 + 1 ∧ version d1 < version d2) ∧
    (documents after1 !! "plan" = documents Scenario.in_plan !! "plan" →
       version d2 = version d1).
Proof.
  apply (edits_store_the_version_read_plus_one Scenario.calm Scenario.calm
           Scenario.alice Scenario.bob "plan" "from alice" "from bob"
           Scenario.in_plan Scenario.in_plan
           (exec (handleDocumentEdit_resumed Scenario.calm Scenario.alice "plan" "from alice"
                    (Some Scenario.plan)) Scenario.in_plan)
           (exec (handleDocumentEdit_resumed Scenario.calm Scenario.alice "plan" "from alice"
                    (Some Scenario.plan)) Scenario.in_plan)
           Scenario.plan Cases.plan_v8 Scenario.plan Cases.plan_v8).
  all: try reflexivity.
  all: unfold increments_exactly; simpl; lia.
Defined.

(** ** Join: local membership *)

Lemma activeUsers_add_eq (m : gmap string (gset Z)) (documentId : string) (u : Z) :
  alter (λ s, {[u]} ∪ s) documentId
    (if negb (bool_decide (is_Some (m !! documentId))) then <[documentId := ∅]> m else m)
  = <[documentId := {[u]} ∪ default ∅ (m !! documentId)]> m.
Proof.
  apply map_eq. intros k. destruct (decide (k = documentId)) as [->|Hne].
  - rewrite lookup_insert_eq. destruct (m !! documentId) as [s|] eqn:Hm.
    + rewrite bool_decide_eq_true_2 by eauto. cbn. by rewrite lookup_alter_eq, Hm.
    + rewrite bool_decide_eq_false_2 by (by intros [? ?]). cbn.
      by rewrite lookup_alter_eq, lookup_insert_eq.
  - rewrite lookup_insert_ne by done. rewrite lookup_alter_ne by done.
    destruct (negb _); [by rewrite lookup_insert_ne | done].
Qed.

(** Once the access check has passed, the socket and the activeUsers map
    are updated before the first Redis call, whatever that call does. *)
Lemma join_local_membership (env : Env) (socket : Socket) (documentId : string)
    (w : World) (document : Document) :
  findById_throws env = false →
  documents w !! documentId = Some document →
  hasAccess document (userId (user socket)) = true →
  let w' := exec (handleDocumentJoin env socket documentId) w in
  sockets w' = alter (joined documentId) (id socket) (sockets w) ∧
  activeUsers w' =
    <[documentId := {[userId (user socket)]} ∪ default ∅ (activeUsers w !! documentId)]>
      (activeUsers w) ∧
  documents w' = documents w.
Proof.
  intros Hfind Hsome Hacc. unfold_handler. rewrite Hfind, Hsome, Hacc. cbn.
  pose proof (activeUsers_add_eq (activeUsers w) documentId (userId (user socket))) as Hadd.
  assert (∀ m : gmap string SocketState,
    alter (λ s, {| s_user := s_user s; rooms := rooms s; currentDocument := Some documentId |})
      (id socket)
      (alter (λ s, {| s_user := s_user s; rooms := {[documentId]} ∪ rooms s;
                      currentDocument := currentDocument s |}) (id socket) m)
    = alter (joined documentId) (id socket) m) as Hsock
    by (intros m; by rewrite alter_alter_eq).
  destruct (negb (bool_decide (is_Some (activeUsers w !! documentId)))); cbn;
    repeat case_match; simplify_eq/=; by rewrite ?Hsock.
Qed.

(** C2 (as stated, refuted). alice, connected and Unjoined, joins the
    public document "plan" while Redis is down.  She is sent
    'Failed to join document', but her socket is now in room "plan" with
    currentDocument "plan", and the activeUsers map, which was empty, has
    an entry for "plan". *)
Lemma failed_join_is_not_rolled_back :
  let w := Scenario.connected in
  let w' := exec (handleDocumentJoin Scenario.redis_down Scenario.alice "plan") w in
  sockets w !! "sockA" =
    Some {| s_user := user Scenario.alice; rooms := {["sockA"]}; currentDocument := None |} ∧
  activeUsers w = ∅ ∧
  emitted w' = [("sockA", ev_error "Failed to join document")] ∧
  sockets w' !! "sockA" =
    Some {| s_user := user Scenario.alice; rooms := {["sockA"; "plan"]};
            currentDocument := Some "plan" |} ∧
  activeUsers w' = {[ "plan" := {[1]} ]}.
Proof. vm_compute. by split_and!. Qed.

(** C2 (amended). When the presence-store write of a join fails, the
    sender is sent 'Failed to join document', nothing is written to the
    presence store and nothing is published or broadcast; the local changes
    made before the write stay: the socket is in the document's room, its
    currentDocument is the document, and the identity is in the document's
    activeUsers entry. *)
Theorem join_presence_write_fails (env : Env) (socket : Socket) (documentId : string)
    (w : World) (document : Document) :
  findById_throws env = false →
  documents w !! documentId = Some document →
  hasAccess document (userId (user socket)) = true →
  sAdd_throws env = true →
  let w' := exec (handleDocumentJoin env socket documentId) w in
  emitted w' = emitted w ++ [(id socket, ev_error "Failed to join document")] ∧
  redis w' = redis w ∧
  published w' = published w ∧
  sockets w' = alter (joined documentId) (id socket) (sockets w) ∧
  activeUsers w' =
    <[documentId := {[userId (user socket)]} ∪ default ∅ (activeUsers w !! documentId)]>
      (activeUsers w).
Proof.
  intros Hfind Hsome Hacc Hadd w'.
  destruct (join_local_membership env socket documentId w document) as (Hs & Ha & _);
    [done..|].
  split_and!; [| | |done|done].
  all: subst w'; unfold_handler; rewrite Hfind, Hsome, Hacc, Hadd; cbn.
  all: by destruct (negb _).
Qed.

Lemma join_presence_write_fails_witness :
  let w' := exec (handleDocumentJoin Scenario.redis_down Scenario.alice "plan")
              Scenario.connected in
  emitted w' = emitted Scenario.connected ++ [("sockA", ev_error "Failed to join document")] ∧
  redis w' = redis Scenario.connected ∧
  published w' = published Scenario.connected ∧
  sockets w' = alter (joined "plan") "sockA" (sockets Scenario.connected) ∧
  activeUsers w' =
    <["plan" := {[1]} ∪ default ∅ (activeUsers Scenario.connected !! "plan")]>
      (activeUsers Scenario.connected).
Proof.
  exact (join_presence_write_fails Scenario.redis_down Scenario.alice "plan"
           Scenario.connected Scenario.plan eq_refl eq_refl eq_refl eq_refl).
Defined.

(** ** Presence keys *)

Lemma string_app_length (s t : string) :
  String.length (s +:+ t) = (String.length s + String.length t)%nat.
Proof. induction s as [|a s IH]; simpl; [done | by f_equal]. Qed.

Lemma string_app_inv_tail (s1 s2 t : string) : s1 +:+ t = s2 +:+ t → s1 = s2.
Proof.
  revert s2. induction s1 as [|a s1 IH]; intros [|b s2] H.
  - done.
  - apply (f_equal String.length) in H.
    rewrite !string_app_length in H. simpl in H. lia.
  - apply (f_equal String.length) in H.
    rewrite !string_app_length in H. simpl in H. lia.
  - simpl in H. injection H as -> H. f_equal. by apply IH.
Qed.

Lemma users_key_inj (documentId documentId' : string) :
  users_key documentId = users_key documentId' → documentId = documentId'.
Proof.
  unfold users_key. intros H. apply String.app_inj in H.
  by apply string_app_inv_tail in H.
Qed.

(** ** Join while joined elsewhere *)




(** ** Cursor and typing signals *)

(** C8 (as stated, refuted). alice and bob are in room "plan"; alice's
    typing signal is sent to bob's socket, and nothing is published to the
    relay. *)
Lemma typing_is_not_relayed :
  let w := Scenario.in_plan in
  let w' := exec (handleTypingIndicator Scenario.calm Scenario.alice "plan" true) w in
  published w' = published w ∧
  emitted w' = emitted w ++
    [("sockB", ev_user_typing {| t_userId := 1; t_username := "alice"; t_isTyping := true |})].
Proof. vm_compute. by split_and!. Qed.

(** C8 (amended). A cursor event whose publish succeeds is published on
    the cursor channel, where every instance that gets it sends it to the
    sockets in the room other than the sender's, and is sent at once to the
    other local sockets in the room.  A typing event is only sent to the
    other local sockets in the room: nothing is published for it, and no
    relay channel carries it. *)
Theorem cursor_is_relayed_typing_is_local (env : Env) (socket : Socket)
    (documentId : string) (position : Z) (isTyping : bool) (w : World) :
  let cursorData :=
    {| k_documentId := documentId; k_userId := userId (user socket);
       k_username := username (user socket); k_position := position;
       k_socketId := id socket |} in
  let typingData :=
    {| t_userId := userId (user socket); t_username := username (user socket);
       t_isTyping := isTyping |} in
  (publish_throws env = false →
   let w' := exec (handleCursorPosition env socket documentId position) w in
   published w' = published w ++ [ch_document_cursor cursorData] ∧
   emitted w' = emitted w ++
     ((λ sid, (sid, ev_cursor_move cursorData)) <$> recipients documentId {[id socket]} w) ∧
   ∀ peer : World,
     emitted (exec (on_relay_message (ch_document_cursor cursorData)) peer) =
     emitted peer ++
       ((λ sid, (sid, ev_cursor_move cursorData)) <$> recipients documentId {[id socket]} peer)) ∧
  (let w' := exec (handleTypingIndicator env socket documentId isTyping) w in
   published w' = published w ∧
   emitted w' = emitted w ++
     ((λ sid, (sid, ev_user_typing typingData)) <$> recipients documentId {[id socket]} w)) ∧
  (∀ (m : RelayMessage) (peer : World) (sid : string) (data : TypingData),
     (sid, ev_user_typing data) ∈ emitted (exec (on_relay_message m) peer) →
     (sid, ev_user_typing data) ∈ emitted peer).
Proof.
  intros cursorData typingData. split_and!.
  - intros Hpub. unfold_handler. rewrite Hpub. by cbn.
  - by unfold_handler.
  - intros m peer sid data. unfold_handler.
    destruct m; cbn; rewrite elem_of_app, list_elem_of_fmap; naive_solver.
Qed.

Lemma cursor_is_relayed_typing_is_local_witness :
  let cursorData :=
    {| k_documentId := "plan"; k_userId := 1; k_username := "alice"; k_position := 42;
       k_socketId := "sockA" |} in
  let w' := exec (handleCursorPosition Scenario.calm Scenario.alice "plan" 42)
              Scenario.in_plan in
  published w' = published Scenario.in_plan ++ [ch_document_cursor cursorData] ∧
  emitted w' = emitted Scenario.in_plan ++
    ((λ sid, (sid, ev_cursor_move cursorData)) <$> recipients "plan" {["sockA"]} Scenario.in_plan) ∧
  ∀ peer : World,
    emitted (exec (on_relay_message (ch_document_cursor cursorData)) peer) =
    emitted peer ++
      ((λ sid, (sid, ev_cursor_move cursorData)) <$> recipients "plan" {["sockA"]} peer).
Proof.
  exact (proj1 (cursor_is_relayed_typing_is_local Scenario.calm Scenario.alice "plan" 42
                  true Scenario.in_plan) eq_refl).
Defined.

(** ** The activeUsers map *)

Section active_users.
Implicit Types (m : gmap string (gset Z)) (w : World).

Lemma no_empty_entry_insert m documentId (s : gset Z) :
  s ≠ ∅ → no_empty_entry m → no_empty_entry (<[documentId := s]> m).
Proof.
  intros Hs Hm k s'. destruct (decide (k = documentId)) as [->|Hne].
  - rewrite lookup_insert_eq. by intros [= <-].
  - rewrite lookup_insert_ne by done. apply Hm.
Qed.

(** Leave, when removing the user empties the set: the key goes. *)
Lemma no_empty_entry_delete m documentId (f : gset Z → gset Z) :
  no_empty_entry m → no_empty_entry (delete documentId (alter f documentId m)).
Proof.
  intros Hm k s'. destruct (decide (k = documentId)) as [->|Hne].
  - by rewrite lookup_delete_eq.
  - rewrite lookup_delete_ne, lookup_alter_ne by done. apply Hm.
Qed.

(** Leave, when the set still has members after the removal: it stays. *)
Lemma no_empty_entry_shrink m documentId (u : Z) :
  bool_decide (size (default ∅ (alter (λ s, s ∖ {[u]}) documentId m !! documentId)) = 0%nat)
    = false →
  no_empty_entry m → no_empty_entry (alter (λ s, s ∖ {[u]}) documentId m).
Proof.
  intros Hsize Hm k s'. apply bool_decide_eq_false in Hsize.
  destruct (decide (k = documentId)) as [->|Hne].
  - intros Hk. rewrite Hk in Hsize. cbn in Hsize.
    intros ->. by apply Hsize, size_empty.
  - rewrite lookup_alter_ne by done. apply Hm.
Qed.

(** Join: the entry is created if need be, then the user is added. *)
Lemma no_empty_entry_add m documentId (u : Z) :
  no_empty_entry m →
  no_empty_entry
    (alter (λ s, {[u]} ∪ s) documentId
       (if negb (bool_decide (is_Some (m !! documentId))) then <[documentId := ∅]> m else m)).
Proof.
  intros Hm. rewrite activeUsers_add_eq. apply no_empty_entry_insert; [set_solver | done].
Qed.

Lemma join_no_empty_entry env socket documentId w :
  no_empty_entry (activeUsers w) →
  no_empty_entry (activeUsers (exec (handleDocumentJoin env socket documentId) w)).
Proof.
  intros Hinv. unfold_handler. cbn -[hasAccess].
  repeat case_match; simplify_eq/=; try done.
  all: pose proof (no_empty_entry_add _ documentId (userId (user socket)) Hinv) as Hnew.
  all: match goal with H : negb (bool_decide _) = _ |- _ => rewrite H in Hnew; exact Hnew end.
Qed.

Lemma leave_no_empty_entry env socket documentId w :
  no_empty_entry (activeUsers w) →
  no_empty_entry (activeUsers (exec (handleDocumentLeave env socket documentId) w)).
Proof.
  intros Hinv. unfold_handler. cbn.
  repeat case_match; simplify_eq/=; try done.
  all: by (apply no_empty_entry_delete || apply no_empty_entry_shrink).
Qed.

Lemma edit_activeUsers env socket documentId newContent w :
  activeUsers (exec (handleDocumentEdit env socket documentId newContent) w) = activeUsers w.
Proof.
  unfold_handler. cbn -[hasWriteAccess]. repeat case_match; by simplify_eq/=.
Qed.

Lemma cursor_activeUsers env socket documentId position w :
  activeUsers (exec (handleCursorPosition env socket documentId position) w) = activeUsers w.
Proof. unfold_handler. cbn. repeat case_match; by simplify_eq/=. Qed.

Lemma typing_activeUsers env socket documentId isTyping w :
  activeUsers (exec (handleTypingIndicator env socket documentId isTyping) w) = activeUsers w.
Proof. by unfold_handler. Qed.

Lemma relay_activeUsers (msg : RelayMessage) w :
  activeUsers (exec (on_relay_message msg) w) = activeUsers w.
Proof. by destruct msg. Qed.

Lemma disconnection_no_empty_entry env socket w :
  no_empty_entry (activeUsers w) →
  no_empty_entry (activeUsers (exec (handleDisconnection env socket) w)).
Proof.
  intros Hinv. unfold handleDisconnection, exec, try_catch, mbind, M_bind, bind,
    socket_currentDocument, gets. cbn.
  destruct (sockets w !! id socket ≫= currentDocument) as [documentId|]; [|done].
  case_bool_decide; [|done].
  pose proof (leave_no_empty_entry env socket documentId w Hinv) as Hleave.
  unfold exec in Hleave.
  by destruct (handleDocumentLeave env socket documentId w) as [[] ?].
Qed.

Lemma step_no_empty_entry (s : Step) w :
  no_empty_entry (activeUsers w) → no_empty_entry (activeUsers (step s w)).
Proof.
  intros Hinv. destruct s as [socket | env sid e | env sid | msg | docs r]; unfold step.
  - by destruct (sockets w !! id socket).
  - destruct (sockets w !! sid) as [s|]; [|done].
    destruct e; unfold handleClientEvent.
    + by apply join_no_empty_entry.
    + by apply leave_no_empty_entry.
    + by rewrite edit_activeUsers.
    + by rewrite cursor_activeUsers.
    + by rewrite typing_activeUsers.
  - destruct (sockets w !! sid) as [s|]; [|done].
    by apply (disconnection_no_empty_entry env {| id := sid; user := s_user s |}).
  - by rewrite relay_activeUsers.
  - done.
Qed.

Lemma run_no_empty_entry (tr : list Step) w :
  no_empty_entry (activeUsers w) → no_empty_entry (activeUsers (run tr w)).
Proof.
  revert w. induction tr as [|s tr IH]; intros w Hinv; [done|].
  cbn. by apply IH, step_no_empty_entry.
Qed.
End active_users.

(** C10. In every state an instance can reach from its start (an empty
    activeUsers map), by any sequence of connections, client events with
    any outcome of the awaited calls, disconnections, relay deliveries and
    changes made to the shared stores by others, every key of the
    activeUsers map holds a non-empty set. *)
Theorem activeUsers_entries_are_non_empty (tr : list Step)
    (docs : gmap string Document) (r : gmap string (gset Z)) :
  no_empty_entry (activeUsers (run tr (initial docs r))).
Proof.
  apply run_no_empty_entry. intros documentId s. cbn. by rewrite lookup_empty.
Qed.

(** ** Edit: who receives the update *)

Lemma recipients_spec (room other : string) (w : World) (sid : string) :
  sid ∈ recipients room {[other]} w ↔
  ∃ s, sockets w !! sid = Some s ∧ room ∈ rooms s ∧ other ∉ rooms s.
Proof.
  unfold recipients. rewrite list_elem_of_fmap. split.
  - intros ([k s] & -> & Hin). apply list_elem_of_filter in Hin as [[Hroom Hex] Hin].
    apply elem_of_map_to_list in Hin. exists s. cbn in *. split_and!; [done..|]. set_solver.
  - intros (s & Hs & Hroom & Hex). exists (sid, s). split; [done|].
    apply list_elem_of_filter. split; [|by apply elem_of_map_to_list].
    split; cbn; [done | set_solver].
Qed.

Lemma edit_published (env : Env) (socket : Socket) (documentId newContent : string) (w : World) :
  let w' := exec (handleDocumentEdit env socket documentId newContent) w in
  published w' = published w ∨
  ∃ data, published w' = published w ++ [ch_document_updates data] ∧
          u_documentId data = documentId ∧ u_socketId data = id socket.
Proof.
  unfold_handler. cbn -[hasWriteAccess].
  repeat case_match; simplify_eq/=; auto.
  all: right; eexists; by split_and!.
Qed.

(** A socket that is in the room named by its own id gets no
    'document:update' for its own edit: the local broadcast and the
    subscriber of every instance except that room. *)
Lemma edit_excludes_sender_in_own_room (env : Env) (socket : Socket)
    (documentId newContent : string) (w : World) :
  (∀ s, sockets w !! id socket = Some s → id socket ∈ rooms s) →
  let w' := exec (handleDocumentEdit env socket documentId newContent) w in
  (∀ data, (id socket, ev_document_update data) ∈ emitted w' →
           (id socket, ev_document_update data) ∈ emitted w) ∧
  (∀ (new : list RelayMessage) (m : RelayMessage) (peer : World) data,
     published w' = published w ++ new → m ∈ new →
     (∀ s, sockets peer !! id socket = Some s → id socket ∈ rooms s) →
     (id socket, ev_document_update data) ∈ emitted (exec (on_relay_message m) peer) →
     (id socket, ev_document_update data) ∈ emitted peer).
Proof.
  intros Hown w'. split.
  - intros data. subst w'. unfold_handler. cbn -[hasWriteAccess].
    repeat case_match; simplify_eq/=; auto.
    all: rewrite elem_of_app; intros [?|Hin]; [done|].
    all: try (apply list_elem_of_singleton in Hin; congruence).
    apply list_elem_of_fmap in Hin as (sid & [= <- _] & Hin).
    apply recipients_spec in Hin as (s & Hs & _ & Hex). cbn in Hs.
    destruct Hex. by apply Hown.
  - intros new m peer data Hnew Hm Hpeer.
    destruct (edit_published env socket documentId newContent w)
      as [Heq | (upd & Heq & Hdoc & Hsid)]; fold w' in Heq; rewrite Heq in Hnew.
    + rewrite <- (app_nil_r (published w)) in Hnew at 1.
      apply app_inv_head in Hnew. subst new. by apply elem_of_nil in Hm.
    + apply app_inv_head in Hnew. subst new. apply list_elem_of_singleton in Hm. subst m.
      unfold_handler. cbn. rewrite elem_of_app. intros [?|Hin]; [done|].
      apply list_elem_of_fmap in Hin as (sid & [= <- _] & Hin).
      apply recipients_spec in Hin as (s & Hs & _ & Hex).
      destruct Hex. rewrite Hsid. by apply Hpeer.
Qed.

(** The sockets after each handler. *)
Lemma join_sockets (env : Env) (socket : Socket) (documentId : string) (w : World) :
  let w' := exec (handleDocumentJoin env socket documentId) w in
  sockets w' = sockets w ∨ sockets w' = alter (joined documentId) (id socket) (sockets w).
Proof.
  unfold_handler. cbn -[hasAccess].
  repeat case_match; simplify_eq/=; auto.
  all: right; by rewrite alter_alter_eq.
Qed.

Lemma leave_sockets (env : Env) (socket : Socket) (documentId : string) (w : World) :
  sockets (exec (handleDocumentLeave env socket documentId) w) =
  alter (λ s, {| s_user := s_user s; rooms := rooms s ∖ {[documentId]};
                 currentDocument := None |}) (id socket) (sockets w).
Proof.
  unfold_handler. cbn.
  repeat case_match; simplify_eq/=; by rewrite alter_alter_eq.
Qed.

Lemma edit_sockets (env : Env) (socket : Socket) (documentId newContent : string) (w : World) :
  sockets (exec (handleDocumentEdit env socket documentId newContent) w) = sockets w.
Proof.
  unfold_handler. cbn -[hasWriteAccess]. repeat case_match; by simplify_eq/=.
Qed.

Lemma cursor_sockets (env : Env) (socket : Socket) (documentId : string) (position : Z)
    (w : World) :
  sockets (exec (handleCursorPosition env socket documentId position) w) = sockets w.
Proof. unfold_handler. cbn. repeat case_match; by simplify_eq/=. Qed.

Lemma disconnection_sockets (env : Env) (socket : Socket) (w : World) (k : string) :
  k ≠ id socket →
  sockets (exec (handleDisconnection env socket) w) !! k = sockets w !! k.
Proof.
  intros Hne. unfold handleDisconnection, exec, try_catch, mbind, M_bind, bind,
    socket_currentDocument, gets. cbn.
  destruct (sockets w !! id socket ≫= currentDocument) as [documentId|]; [|done].
  case_bool_decide; [|done].
  pose proof (leave_sockets env socket documentId w) as Hleave. unfold exec in Hleave.
  destruct (handleDocumentLeave env socket documentId w) as [[] w']; cbn in *;
    by rewrite Hleave, lookup_alter_ne.
Qed.

(** Only a 'document:leave' that names the sender's own socket id takes a
    socket out of its own room. *)
Lemma step_in_own_room (s : Step) (w : World) :
  ¬ leaves_own_room s → in_own_room w → in_own_room (step s w).
Proof.
  intros Hs Hw. unfold in_own_room in *.
  destruct s as [socket | env sid e | env sid | msg | docs r]; unfold step.
  - destruct (sockets w !! id socket) eqn:Hfree; [done|].
    cbv zeta. rewrite on_connection_exec.
    intros k s. cbn. destruct (decide (k = id socket)) as [->|Hne].
    + rewrite lookup_insert_eq. intros [= <-]. cbn. set_solver.
    + rewrite lookup_insert_ne by done. apply Hw.
  - destruct (sockets w !! sid) as [s0|] eqn:Hsid; [|done].
    destruct e; unfold handleClientEvent.
    + destruct (join_sockets env {| id := sid; user := s_user s0 |} documentId w)
        as [-> | ->]; [done|].
      intros k s. cbn. destruct (decide (k = sid)) as [->|Hne].
      * rewrite lookup_alter_eq, Hsid. intros [= <-]. cbn.
        apply elem_of_union_r. by eapply Hw.
      * rewrite lookup_alter_ne by done. apply Hw.
    + rewrite leave_sockets. cbn in Hs.
      intros k s. cbn. destruct (decide (k = sid)) as [->|Hne].
      * rewrite lookup_alter_eq, Hsid. intros [= <-]. cbn.
        apply elem_of_difference. split; [by eapply Hw | set_solver].
      * rewrite lookup_alter_ne by done. apply Hw.
    + by rewrite edit_sockets.
    + by rewrite cursor_sockets.
    + done.
  - destruct (sockets w !! sid) as [s0|] eqn:Hsid; [|done].
    cbv zeta. rewrite on_disconnect_exec.
    intros k s. cbn. destruct (decide (k = sid)) as [->|Hne].
    + by rewrite lookup_delete_eq.
    + rewrite lookup_delete_ne by done.
      rewrite (disconnection_sockets env {| id := sid; user := s_user s0 |}) by done.
      cbn. rewrite lookup_alter_ne by done. apply Hw.
  - by destruct msg.
  - done.
Qed.

Lemma run_in_own_room (tr : list Step) (w : World) :
  Forall (λ s, ¬ leaves_own_room s) tr → in_own_room w → in_own_room (run tr w).
Proof.
  revert w. induction tr as [|s tr IH]; intros w Htr Hw; [done|].
  apply Forall_cons in Htr as [Hs Htr]. cbn. by apply IH, step_in_own_room.
Qed.

(** C6 (the code at a failing input). alice's first event is a
    'document:leave' that names her own socket id: handleDocumentLeave
    checks nothing and calls socket.leave with it, which takes her socket
    out of the room named by its id.  She and bob then join "plan".  Her
    edit is saved as version 8, and she is sent the 'document:update' of her
    own edit twice: by the local broadcast, and again when the subscriber of
    her instance gets the published message back from the relay. *)
Theorem sender_outside_its_own_room_gets_the_echo :
  let w := run [connection Scenario.alice; connection Scenario.bob;
                from_client Scenario.calm "sockA" (document_leave "sockA");
                from_client Scenario.calm "sockA" (document_join "plan");
                from_client Scenario.calm "sockB" (document_join "plan")]
             (initial Scenario.store ∅) in
  let w' := exec (handleDocumentEdit Scenario.calm Scenario.alice "plan" "hi") w in
  let update :=
    {| u_documentId := "plan"; u_content := "hi"; u_version := 8;
       u_userId := 1; u_username := "alice";
       u_timestamp := 1700000001; u_socketId := "sockA" |} in
  (rooms <$> sockets w !! "sockA") = Some {["plan"]} ∧
  published w' = published w ++ [ch_document_updates update] ∧
  emitted w' = emitted w ++
    [("sockA", ev_document_update update); ("sockB", ev_document_update update)] ∧
  emitted (step (relay_delivers (ch_document_updates update)) w') = emitted w' ++
    [("sockA", ev_document_update update); ("sockB", ev_document_update update)].
Proof. vm_compute. by split_and!. Qed.

(** * Further properties of the handler *)

(** ** Access checks, continued *)

Lemma find_first_match (u : Z) (before after : list Collaborator) (c : Collaborator) :
  (∀ c', c' ∈ before → c_userId c' ≠ u) →
  c_userId c = u →
  List.find (λ c, bool_decide (c_userId c = u)) (before ++ c :: after) = Some c.
Proof.
  intros Hbefore Hc. induction before as [|c0 before IH]; cbn.
  - by rewrite bool_decide_eq_true_2.
  - rewrite bool_decide_eq_false_2 by (apply Hbefore; left).
    apply IH. intros c' Hin. apply Hbefore. by right.
Qed.

(** X1. Whoever passes the write check of an edit passes the access check
    of a join: the owner, and every user the first collaborator entry of
    which has write or admin permission. *)
Theorem write_access_implies_access (document : Document) (u : Z) :
  hasWriteAccess document u = true → hasAccess document u = true.
Proof.
  intros Hw. apply hasWriteAccess_may_write in Hw as [Howner | (c & Hin & Hc & _)].
  - unfold hasAccess. by rewrite bool_decide_eq_true_2.
  - unfold hasAccess. apply orb_true_iff. left. apply orb_true_iff. right.
    apply some_collaborator. eauto.
Qed.

Lemma write_access_implies_access_witness :
  hasAccess Scenario.plan 2 = true.
Proof. exact (write_access_implies_access Scenario.plan 2 eq_refl). Defined.

(** X2. For a user who is not the owner, the first entry of the
    collaborators list that carries the user's id decides the write check;
    entries for the same user further down the list are not looked at. *)
Theorem first_collaborator_entry_decides (document : Document) (u : Z)
    (before after : list Collaborator) (c : Collaborator) :
  collaborators document = before ++ c :: after →
  (∀ c', c' ∈ before → c_userId c' ≠ u) →
  c_userId c = u →
  ownerId document ≠ u →
  hasWriteAccess document u = bool_decide (c_permission c ∈ [write; admin]).
Proof.
  intros Hlist Hbefore Hc Howner. unfold hasWriteAccess.
  rewrite Hlist, (find_first_match u before after c Hbefore Hc).
  by rewrite bool_decide_eq_false_2.
Qed.

Lemma first_collaborator_entry_decides_witness :
  hasWriteAccess Cases.twice 2 = false.
Proof.
  apply (first_collaborator_entry_decides Cases.twice 2
           [ {| c_userId := 3; c_username := "carol"; c_permission := admin |} ]
           [ {| c_userId := 2; c_username := "bob"; c_permission := write |} ]
           {| c_userId := 2; c_username := "bob"; c_permission := read |}).
  - reflexivity.
  - intros c' Hc'. apply list_elem_of_singleton in Hc'. subst c'. simpl. lia.
  - reflexivity.
  - simpl. lia.
Defined.

(** ** Edit: requests that are not persisted *)

(** X3. An edit of a document that is not stored is answered with
    'Document not found' and has no other effect; the write check is not
    reached. *)
Theorem edit_of_missing_document (env : Env) (socket : Socket)
    (documentId newContent : string) (w : World) :
  findById_throws env = false →
  documents w !! documentId = None →
  rejected_with "Document not found" socket w
    (exec (handleDocumentEdit env socket documentId newContent) w).
Proof.
  intros Hfind Hnone. unfold_handler. rewrite Hfind, Hnone. by cbn.
Qed.

Lemma edit_of_missing_document_witness :
  rejected_with "Document not found" Scenario.alice Scenario.connected
    (exec (handleDocumentEdit Scenario.calm Scenario.alice "gone" "text") Scenario.connected).
Proof.
  exact (edit_of_missing_document Scenario.calm Scenario.alice "gone" "text"
           Scenario.connected eq_refl eq_refl).
Defined.

(** X4. When the read of the document rejects, or the sender passes the
    write check and the save rejects, nothing is stored, nothing is
    published and no socket is sent an update: the failure is logged and
    the sender is sent 'Failed to update document'. *)
Theorem edit_store_failure (env : Env) (socket : Socket)
    (documentId newContent : string) (w : World) :
  findById_throws env = true ∨
  (save_throws env = true ∧
   ∃ document, documents w !! documentId = Some document ∧
               hasWriteAccess document (userId (user socket)) = true) →
  let w' := exec (handleDocumentEdit env socket documentId newContent) w in
  rejected_with "Failed to update document" socket w w' ∧
  console w' = console w ++ [console_error_line "Error in handleDocumentEdit:"].
Proof.
  intros [Hfind | (Hsave & document & Hsome & Hacc)]; unfold_handler.
  - rewrite Hfind. by cbn.
  - destruct (findById_throws env); [by cbn|].
    rewrite Hsome, Hacc, Hsave. by cbn.
Qed.

Lemma edit_store_failure_witness :
  let w' := exec (handleDocumentEdit Cases.save_down Scenario.alice "plan" "text")
              Scenario.in_plan in
  rejected_with "Failed to update document" Scenario.alice Scenario.in_plan w' ∧
  console w' = console Scenario.in_plan ++ [console_error_line "Error in handleDocumentEdit:"].
Proof.
  apply (edit_store_failure Cases.save_down Scenario.alice "plan" "text" Scenario.in_plan).
  right. split; [reflexivity|]. exists Scenario.plan. split; reflexivity.
Defined.

(** ** Leave *)

Lemma activeUsers_remove_eq (m : gmap string (gset Z)) (documentId : string) (u : Z) :
  (if bool_decide (is_Some (m !! documentId))
   then let m' := alter (λ s, s ∖ {[u]}) documentId m in
        if bool_decide (size (default ∅ (m' !! documentId)) = 0%nat)
        then delete documentId m' else m'
   else m) = without_user documentId u m.
Proof.
  unfold without_user. destruct (m !! documentId) as [s|] eqn:Hm.
  - rewrite bool_decide_eq_true_2 by eauto. cbn.
    rewrite lookup_alter_eq, Hm. cbn.
    destruct (decide (s ∖ {[u]} = ∅)) as [Hempty|Hne].
    + rewrite bool_decide_eq_true_2 by (by rewrite Hempty, size_empty).
      apply map_eq. intros k. destruct (decide (k = documentId)) as [->|Hk].
      * by rewrite !lookup_delete_eq.
      * by rewrite !lookup_delete_ne, lookup_alter_ne.
    + rewrite bool_decide_eq_false_2 by (by intros ?%size_empty_inv%leibniz_equiv).
      apply map_eq. intros k. destruct (decide (k = documentId)) as [->|Hk].
      * by rewrite lookup_alter_eq, lookup_insert_eq, Hm.
      * by rewrite lookup_alter_ne, lookup_insert_ne.
  - by rewrite bool_decide_eq_false_2 by (by intros [? ?]).
Qed.

(** The local part of a leave comes before its first awaited call. *)
Lemma leave_activeUsers (env : Env) (socket : Socket) (documentId : string) (w : World) :
  activeUsers (exec (handleDocumentLeave env socket documentId) w) =
  without_user documentId (userId (user socket)) (activeUsers w).
Proof.
  rewrite <- activeUsers_remove_eq. unfold_handler. cbn.
  repeat case_match; simplify_eq/=; congruence.
Qed.

Lemma leave_emitted (env : Env) (socket : Socket) (documentId : string) (w : World) :
  let w' := exec (handleDocumentLeave env socket documentId) w in
  emitted w' = emitted w ∨
  ∃ data, emitted w' =
    emitted w ++ ((λ sid, (sid, ev_user_presence data)) <$> recipients documentId ∅ w').
Proof.
  unfold_handler. cbn.
  repeat case_match; simplify_eq/=; auto.
  all: right; by eexists.
Qed.

Lemma leave_documents (env : Env) (socket : Socket) (documentId : string) (w : World) :
  documents (exec (handleDocumentLeave env socket documentId) w) = documents w.
Proof. unfold_handler. cbn. repeat case_match; by simplify_eq/=. Qed.

(** X5. Whatever Redis does, a leave takes the socket out of the room,
    clears its currentDocument, writes nothing to the document store, and
    sends no 'error' event to anyone: its failures are only logged. *)
Theorem leave_is_local_and_silent (env : Env) (socket : Socket) (documentId : string)
    (w : World) :
  let w' := exec (handleDocumentLeave env socket documentId) w in
  sockets w' = alter (left_room documentId) (id socket) (sockets w) ∧
  documents w' = documents w ∧
  ∀ sid message, (sid, ev_error message) ∈ emitted w' → (sid, ev_error message) ∈ emitted w.
Proof.
  intros w'. split_and!.
  - apply leave_sockets.
  - apply leave_documents.
  - intros sid message.
    destruct (leave_emitted env socket documentId w) as [Heq | (data & Heq)];
      fold w' in Heq; rewrite Heq; [done|].
    rewrite elem_of_app, list_elem_of_fmap. naive_solver.
Qed.

Lemma without_user_spec (m : gmap string (gset Z)) (documentId : string) (u : Z) :
  (u ∉ default ∅ (without_user documentId u m !! documentId)) ∧
  ∀ other, other ≠ documentId → without_user documentId u m !! other = m !! other.
Proof.
  unfold without_user. destruct (m !! documentId) as [s|] eqn:Hm.
  - destruct (decide (s ∖ {[u]} = ∅)); split.
    + rewrite lookup_delete_eq. cbn. set_solver.
    + intros other Hne. by rewrite lookup_delete_ne.
    + rewrite lookup_insert_eq. cbn. set_solver.
    + intros other Hne. by rewrite lookup_insert_ne.
  - split; [|done]. rewrite Hm. cbn. set_solver.
Qed.

(** X6. Whatever Redis does, after a leave the user is in no activeUsers
    entry of that document, also when another socket of the same user is
    still in the room; the entries of all other documents are as before. *)
Theorem leave_removes_user_from_entry (env : Env) (socket : Socket) (documentId : string)
    (w : World) :
  let w' := exec (handleDocumentLeave env socket documentId) w in
  (userId (user socket) ∉ default ∅ (activeUsers w' !! documentId)) ∧
  ∀ other, other ≠ documentId → activeUsers w' !! other = activeUsers w !! other.
Proof.
  intros w'. subst w'. rewrite leave_activeUsers. apply without_user_spec.
Qed.

(** The presence store after SREM. *)
Lemma leave_redis (env : Env) (socket : Socket) (documentId : string) (w : World) :
  sRem_throws env = false →
  redis (exec (handleDocumentLeave env socket documentId) w) =
  let s := default ∅ (redis w !! users_key documentId) ∖ {[userId (user socket)]} in
  if decide (s = ∅) then delete (users_key documentId) (redis w)
  else <[users_key documentId := s]> (redis w).
Proof.
  intros Hrem. unfold_handler. rewrite Hrem. cbn.
  repeat case_match; simplify_eq/=; try congruence.
  all: case_decide; congruence.
Qed.

(** X7. When the presence store and the relay answer, a leave removes the
    user from the document's presence set and publishes one 'left'
    message whose list of active users is the set read back, which does not
    contain the user. *)
Theorem leave_publishes_the_remaining_users (env : Env) (socket : Socket)
    (documentId : string) (w : World) :
  sRem_throws env = false →
  sMembers_throws env = false →
  publish_throws env = false →
  let u := userId (user socket) in
  let w' := exec (handleDocumentLeave env socket documentId) w in
  let remaining := default ∅ (redis w !! users_key documentId) ∖ {[u]} in
  default ∅ (redis w' !! users_key documentId) = remaining ∧
  (u ∉ elements remaining) ∧
  published w' = published w ++
    [ch_document_presence
       {| p_documentId := documentId; p_userId := u; p_username := username (user socket);
          p_action := "left"; p_activeUsers := elements remaining |}].
Proof.
  intros Hrem Hmem Hpub u w' remaining. split_and!.
  - subst w'. unfold_handler. rewrite Hrem, Hmem, Hpub. cbn.
    repeat case_match; simplify_eq/=.
    all: fold u remaining; destruct (decide (remaining = ∅)) as [Hempty|?];
      rewrite ?lookup_delete_eq, ?lookup_insert_eq; cbn; by rewrite ?Hempty.
  - rewrite elem_of_elements. set_solver.
  - subst w'. unfold_handler. rewrite Hrem, Hmem, Hpub. cbn.
    repeat case_match; simplify_eq/=.
    all: fold u remaining; destruct (decide (remaining = ∅)) as [Hempty|?];
      rewrite ?lookup_delete_eq, ?lookup_insert_eq; cbn; by rewrite ?Hempty.
Qed.

Lemma leave_publishes_the_remaining_users_witness :
  let w' := exec (handleDocumentLeave Scenario.calm Scenario.bob "plan") Scenario.in_plan in
  let remaining := default ∅ (redis Scenario.in_plan !! users_key "plan") ∖ {[2]} in
  default ∅ (redis w' !! users_key "plan") = remaining ∧
  (2 ∉ elements remaining) ∧
  published w' = published Scenario.in_plan ++
    [ch_document_presence
       {| p_documentId := "plan"; p_userId := 2; p_username := "bob";
          p_action := "left"; p_activeUsers := elements remaining |}].
Proof.
  exact (leave_publishes_the_remaining_users Scenario.calm Scenario.bob "plan"
           Scenario.in_plan eq_refl eq_refl eq_refl).
Defined.

(** ** Join, continued *)

Lemma recipients_all (room : string) (w : World) (sid : string) :
  sid ∈ recipients room ∅ w ↔ ∃ s, sockets w !! sid = Some s ∧ room ∈ rooms s.
Proof.
  unfold recipients. rewrite list_elem_of_fmap. split.
  - intros ([k s] & -> & Hin). apply list_elem_of_filter in Hin as [[Hroom _] Hin].
    apply elem_of_map_to_list in Hin. by exists s.
  - intros (s & Hs & Hroom). exists (sid, s). split; [done|].
    apply list_elem_of_filter. split; [|by apply elem_of_map_to_list].
    split; cbn; [done | set_solver].
Qed.

(** A join in which every awaited call succeeds. *)
Lemma join_succeeds (env : Env) (socket : Socket) (documentId : string)
    (w : World) (document : Document) :
  findById_throws env = false →
  sAdd_throws env = false →
  sMembers_throws env = false →
  publish_throws env = false →
  documents w !! documentId = Some document →
  hasAccess document (userId (user socket)) = true →
  let u := userId (user socket) in
  let w' := exec (handleDocumentJoin env socket documentId) w in
  let present := {[u]} ∪ default ∅ (redis w !! users_key documentId) in
  let presenceData :=
    {| p_documentId := documentId; p_userId := u; p_username := username (user socket);
       p_action := "joined"; p_activeUsers := elements present |} in
  redis w' = <[users_key documentId := present]> (redis w) ∧
  emitted w' = emitted w ++
    ((λ sid, (sid, ev_user_presence presenceData)) <$> recipients documentId ∅ w') ++
    [(id socket, ev_document_content
        {| d_documentId := documentId; d_content := content document;
           d_title := title document; d_version := version document |})].
Proof.
  intros Hfind Hadd Hmem Hpub Hsome Hacc u w' present presenceData.
  subst w'. unfold_handler. rewrite Hfind, Hsome, Hacc, Hadd, Hmem, Hpub. cbn.
  destruct (negb _); cbn; rewrite lookup_insert_eq; cbn; by rewrite <- app_assoc.
Qed.

(** X8. After a join in which every awaited call succeeds, the 'joined'
    presence event, which lists the joining user, goes to every socket in
    the document's room, the joining socket included when it is connected,
    and the joining socket is then sent one 'document:content' event with
    the content, title and version of the document as it was found. *)
Theorem join_sends_presence_then_content (env : Env) (socket : Socket) (documentId : string)
    (w : World) (document : Document) :
  findById_throws env = false →
  sAdd_throws env = false →
  sMembers_throws env = false →
  publish_throws env = false →
  documents w !! documentId = Some document →
  hasAccess document (userId (user socket)) = true →
  let u := userId (user socket) in
  let w' := exec (handleDocumentJoin env socket documentId) w in
  let presenceData :=
    {| p_documentId := documentId; p_userId := u; p_username := username (user socket);
       p_action := "joined";
       p_activeUsers := elements ({[u]} ∪ default ∅ (redis w !! users_key documentId)) |} in
  emitted w' = emitted w ++
    ((λ sid, (sid, ev_user_presence presenceData)) <$> recipients documentId ∅ w') ++
    [(id socket, ev_document_content
        {| d_documentId := documentId; d_content := content document;
           d_title := title document; d_version := version document |})] ∧
  u ∈ p_activeUsers presenceData ∧
  (is_Some (sockets w !! id socket) → id socket ∈ recipients documentId ∅ w').
Proof.
  intros Hfind Hadd Hmem Hpub Hsome Hacc u w' presenceData. split_and!.
  - by apply join_succeeds.
  - cbn. rewrite elem_of_elements. set_solver.
  - intros [s Hs]. apply recipients_all.
    destruct (join_local_membership env socket documentId w document) as (Hsock & _);
      [done..|].
    fold w' in Hsock. rewrite Hsock, lookup_alter_eq, Hs. cbn.
    eexists. split; [done|]. cbn. set_solver.
Qed.

Lemma join_sends_presence_then_content_witness :
  let w' := exec (handleDocumentJoin Scenario.calm Scenario.carol "plan") Scenario.in_plan in
  let presenceData :=
    {| p_documentId := "plan"; p_userId := 3; p_username := "carol";
       p_action := "joined";
       p_activeUsers := elements ({[3]} ∪ default ∅ (redis Scenario.in_plan !! users_key "plan")) |} in
  emitted w' = emitted Scenario.in_plan ++
    ((λ sid, (sid, ev_user_presence presenceData)) <$> recipients "plan" ∅ w') ++
    [("sockC", ev_document_content
        {| d_documentId := "plan"; d_content := "draft";
           d_title := "Plan"; d_version := 7 |})] ∧
  3 ∈ p_activeUsers presenceData ∧
  (is_Some (sockets Scenario.in_plan !! "sockC") → "sockC" ∈ recipients "plan" ∅ w').
Proof.
  exact (join_sends_presence_then_content Scenario.calm Scenario.carol "plan"
           Scenario.in_plan Scenario.plan eq_refl eq_refl eq_refl eq_refl eq_refl eq_refl).
Defined.

(** X9. Join followed by leave is a round trip.  When every awaited call
    succeeds and, before the join, the socket had no currentDocument and
    was not in the document's room, and the user was in neither the
    activeUsers entry nor the presence set of the document, the leave
    brings the sockets, the activeUsers map and the presence store back to
    what they were. *)
Theorem join_then_leave_restores (env : Env) (socket : Socket) (documentId : string)
    (w : World) (document : Document) (s : SocketState) :
  findById_throws env = false →
  sAdd_throws env = false →
  sRem_throws env = false →
  sMembers_throws env = false →
  publish_throws env = false →
  documents w !! documentId = Some document →
  hasAccess document (userId (user socket)) = true →
  sockets w !! id socket = Some s →
  currentDocument s = None →
  documentId ∉ rooms s →
  userId (user socket) ∉ default ∅ (activeUsers w !! documentId) →
  activeUsers w !! documentId ≠ Some ∅ →
  userId (user socket) ∉ default ∅ (redis w !! users_key documentId) →
  redis w !! users_key documentId ≠ Some ∅ →
  let w' := exec (handleDocumentLeave env socket documentId)
              (exec (handleDocumentJoin env socket documentId) w) in
  sockets w' = sockets w ∧ activeUsers w' = activeUsers w ∧ redis w' = redis w ∧
  documents w' = documents w.
Proof.
  intros Hfind Hadd Hrem Hmem Hpub Hsome Hacc Hs Hcur Hroom Hau Haune Hr Hrne w'.
  destruct (join_local_membership env socket documentId w document) as (Js & Ja & Jd);
    [done..|].
  destruct (join_succeeds env socket documentId w document) as (Jr & _); [done..|].
  subst w'. split_and!.
  - rewrite leave_sockets, Js, alter_alter_eq.
    apply map_eq. intros k. destruct (decide (k = id socket)) as [->|Hne].
    + rewrite lookup_alter_eq, Hs. cbn. f_equal. destruct s as [us rs cs]. cbn in *.
      subst cs. f_equal. set_solver.
    + by rewrite lookup_alter_ne.
  - rewrite leave_activeUsers, Ja. unfold without_user. rewrite lookup_insert_eq.
    set (u := userId (user socket)) in *.
    assert (({[u]} ∪ default ∅ (activeUsers w !! documentId)) ∖ {[u]}
            = default ∅ (activeUsers w !! documentId)) as -> by set_solver.
    destruct (activeUsers w !! documentId) as [s0|] eqn:Hm; cbn.
    + rewrite decide_False by congruence. rewrite insert_insert_eq. by apply insert_id.
    + rewrite decide_True by done. rewrite delete_insert_eq. by apply delete_id.
  - rewrite leave_redis, Jr by done. cbn. rewrite lookup_insert_eq. cbn.
    set (u := userId (user socket)) in *. set (k := users_key documentId) in *.
    assert (({[u]} ∪ default ∅ (redis w !! k)) ∖ {[u]} = default ∅ (redis w !! k)) as ->
      by set_solver.
    destruct (redis w !! k) as [s0|] eqn:Hm; cbn.
    + rewrite decide_False by congruence. rewrite insert_insert_eq. by apply insert_id.
    + rewrite decide_True by done. rewrite delete_insert_eq. by apply delete_id.
  - by rewrite leave_documents.
Qed.

Lemma join_then_leave_restores_witness :
  let w' := exec (handleDocumentLeave Scenario.calm Scenario.carol "plan")
              (exec (handleDocumentJoin Scenario.calm Scenario.carol "plan") Scenario.in_plan) in
  sockets w' = sockets Scenario.in_plan ∧ activeUsers w' = activeUsers Scenario.in_plan ∧
  redis w' = redis Scenario.in_plan ∧ documents w' = documents Scenario.in_plan.
Proof.
  apply (join_then_leave_restores Scenario.calm Scenario.carol "plan" Scenario.in_plan
           Scenario.plan
           {| s_user := user Scenario.carol; rooms := {["sockC"]}; currentDocument := None |}).
  all: try reflexivity.
  all: vm_compute; intros [=].
Defined.

(** ** The relay echo *)

(** X10. The instance that handles an edit is itself a subscriber of the
    update channel.  When the relay hands the published message back to
    it, every socket that got the update from the local broadcast gets it a
    second time: after the echo the new events are the local broadcast,
    twice. *)
Theorem local_sockets_get_the_update_twice (env : Env) (socket : Socket)
    (documentId newContent : string) (w : World) (document : Document) :
  findById_throws env = false →
  save_throws env = false →
  publish_throws env = false →
  documents w !! documentId = Some document →
  hasWriteAccess document (userId (user socket)) = true →
  let w' := exec (handleDocumentEdit env socket documentId newContent) w in
  let updateData :=
    {| u_documentId := documentId; u_content := newContent;
       u_version := version document + 1;
       u_userId := userId (user socket); u_username := username (user socket);
       u_timestamp := now_sent env; u_socketId := id socket |} in
  let sent := (λ sid, (sid, ev_document_update updateData))
                <$> recipients documentId {[id socket]} w in
  published w' = published w ++ [ch_document_updates updateData] ∧
  emitted (step (relay_delivers (ch_document_updates updateData)) w') =
    emitted w ++ sent ++ sent.
Proof.
  intros Hfind Hsave Hpub Hsome Hacc w' updateData sent.
  destruct (edit_broadcasts env socket documentId newContent w document)
    as (Hsock & _ & _ & Hp & He); [done..|].
  fold w' updateData in Hsock, Hp, He. split; [done|].
  unfold step, exec, on_relay_message, io_to_except_emit, broadcast. cbn.
  rewrite He, <- app_assoc. do 2 f_equal.
  unfold sent, recipients. by rewrite Hsock.
Qed.

Lemma local_sockets_get_the_update_twice_witness :
  let w' := exec (handleDocumentEdit Scenario.calm Scenario.alice "plan" "v8")
              Scenario.in_plan in
  let updateData :=
    {| u_documentId := "plan"; u_content := "v8"; u_version := 7 + 1;
       u_userId := 1; u_username := "alice";
       u_timestamp := 1700000001; u_socketId := "sockA" |} in
  let sent := (λ sid, (sid, ev_document_update updateData))
                <$> recipients "plan" {["sockA"]} Scenario.in_plan in
  published w' = published Scenario.in_plan ++ [ch_document_updates updateData] ∧
  emitted (step (relay_delivers (ch_document_updates updateData)) w') =
    emitted Scenario.in_plan ++ sent ++ sent.
Proof.
  exact (local_sockets_get_the_update_twice Scenario.calm Scenario.alice "plan" "v8"
           Scenario.in_plan Scenario.plan eq_refl eq_refl eq_refl eq_refl eq_refl).
Defined.

(** ** Cursor: the publish fails *)

(** X11. When the publish of a cursor position rejects, the position is
    dropped: no socket is sent anything, the sender included, and only the
    console gets a line. *)
Theorem cursor_publish_failure_is_silent (env : Env) (socket : Socket)
    (documentId : string) (position : Z) (w : World) :
  publish_throws env = true →
  exec (handleCursorPosition env socket documentId position) w =
  add_console (console_error_line "Error in handleCursorPosition:") w.
Proof. intros Hpub. unfold_handler. by rewrite Hpub. Qed.

Lemma cursor_publish_failure_is_silent_witness :
  exec (handleCursorPosition Scenario.relay_down Scenario.alice "plan" 42) Scenario.in_plan =
  add_console (console_error_line "Error in handleCursorPosition:") Scenario.in_plan.
Proof.
  exact (cursor_publish_failure_is_silent Scenario.relay_down Scenario.alice "plan" 42
           Scenario.in_plan eq_refl).
Defined.

(** ** Disconnection *)

Lemma disconnect_sockets (env : Env) (sid : string) (w : World) :
  sockets (step (disconnect env sid) w) = delete sid (sockets w).
Proof.
  unfold step. destruct (sockets w !! sid) as [s|] eqn:Hs.
  - cbv zeta. rewrite on_disconnect_exec.
    apply map_eq. intros k. cbn. destruct (decide (k = sid)) as [->|Hne].
    + by rewrite !lookup_delete_eq.
    + rewrite !lookup_delete_ne by done.
      rewrite (disconnection_sockets env {| id := sid; user := s_user s |}) by done.
      cbn. by rewrite lookup_alter_ne.
  - symmetry. by apply delete_id.
Qed.

(** X12. A disconnection removes that socket and no other from the
    instance's sockets, whatever the handler's awaited calls do; and when
    the socket has no currentDocument, the only other effect is the line
    'User disconnected: ...' that the listener logs: no map, store,
    channel or client is touched. *)
Theorem disconnect_removes_the_socket (env : Env) (sid : string) (w : World) :
  sockets (step (disconnect env sid) w) = delete sid (sockets w) ∧
  (∀ s, sockets w !! sid = Some s → currentDocument s = None →
        step (disconnect env sid) w =
        set_sockets (delete sid)
          (add_console (console_log_line ("User disconnected: " +:+ username (s_user s))) w)).
Proof.
  split; [apply disconnect_sockets|].
  intros s Hs Hcur. unfold step. rewrite Hs. cbv zeta. rewrite on_disconnect_exec.
  unfold handleDisconnection, exec, try_catch, mbind, M_bind, bind,
    socket_currentDocument, gets. cbn.
  rewrite lookup_alter_eq, Hs. cbn. rewrite Hcur.
  unfold set_sockets, add_console. cbn. f_equal.
  apply map_eq. intros k. destruct (decide (k = sid)) as [->|Hne].
  - by rewrite !lookup_delete_eq.
  - rewrite !lookup_delete_ne by done. by rewrite lookup_alter_ne.
Qed.

Lemma disconnect_removes_the_socket_witness :
  step (disconnect Scenario.redis_down "sockC") Scenario.in_plan =
  set_sockets (delete "sockC")
    (add_console (console_log_line "User disconnected: carol") Scenario.in_plan).
Proof.
  apply (proj2 (disconnect_removes_the_socket Scenario.redis_down "sockC" Scenario.in_plan)
           {| s_user := user Scenario.carol; rooms := {["sockC"]}; currentDocument := None |});
    reflexivity.
Defined.

(** handleDocumentLeave catches what its awaited calls throw. *)
Lemma leave_returns (env : Env) (socket : Socket) (documentId : string) (w : World) :
  (handleDocumentLeave env socket documentId w).1 = Returned tt.
Proof.
  unfold handleDocumentLeave, try_catch.
  match goal with |- context [match ?body w with _ => _ end] =>
    by destruct (body w) as [[[]|] ?] end.
Qed.

(** X13. A disconnection of a socket whose currentDocument is a document
    id takes the user out of that document's activeUsers entry, whatever
    Redis does. *)
Theorem disconnect_leaves_the_current_document (env : Env) (sid : string) (w : World)
    (s : SocketState) (documentId : string) :
  sockets w !! sid = Some s →
  currentDocument s = Some documentId →
  documentId ≠ "" →
  userId (s_user s) ∉ default ∅ (activeUsers (step (disconnect env sid) w) !! documentId).
Proof.
  intros Hs Hcur Hne. unfold step. rewrite Hs. cbv zeta. rewrite on_disconnect_exec.
  set (socket := {| id := sid; user := s_user s |}).
  set (w0 := add_console _ (set_sockets (alter _ sid) w)).
  assert (exec (handleDisconnection env socket) w0
          = exec (handleDocumentLeave env socket documentId) w0) as Heq.
  { unfold handleDisconnection, exec, try_catch, mbind, M_bind, bind,
      socket_currentDocument, gets. subst w0. cbn.
    rewrite lookup_alter_eq, Hs. cbn. rewrite Hcur, bool_decide_eq_true_2 by done.
    match goal with |- context [handleDocumentLeave env socket documentId ?w1] =>
      pose proof (leave_returns env socket documentId w1) as Hret;
      by destruct (handleDocumentLeave env socket documentId w1) as [[[]|] ?]
    end. }
  cbn. rewrite Heq, leave_activeUsers. apply without_user_spec.
Qed.

Lemma disconnect_leaves_the_current_document_witness :
  2 ∉ default ∅ (activeUsers (step (disconnect Scenario.redis_down "sockB") Scenario.in_plan)
                   !! "plan").
Proof.
  apply (disconnect_leaves_the_current_document Scenario.redis_down "sockB" Scenario.in_plan
           {| s_user := user Scenario.bob; rooms := {["sockB"; "plan"]};
              currentDocument := Some "plan" |} "plan").
  - reflexivity.
  - reflexivity.
  - discriminate.
Defined.

(** ** Invariants of the sockets *)

Lemma step_current_document (s : Step) (w : World) :
  current_document_is_a_room w → current_document_is_a_room (step s w).
Proof.
  intros Hw. unfold current_document_is_a_room in *.
  destruct s as [socket | env sid e | env sid | msg | docs r].
  - unfold step. destruct (sockets w !! id socket) eqn:Hfree; [done|].
    cbv zeta. rewrite on_connection_exec.
    intros k s d. cbn. destruct (decide (k = id socket)) as [->|Hne].
    + rewrite lookup_insert_eq. by intros [= <-].
    + rewrite lookup_insert_ne by done. apply Hw.
  - unfold step. destruct (sockets w !! sid) as [s0|] eqn:Hsid; [|done].
    destruct e; unfold handleClientEvent.
    + destruct (join_sockets env {| id := sid; user := s_user s0 |} documentId w)
        as [-> | ->]; [done|].
      intros k s d. cbn. destruct (decide (k = sid)) as [->|Hne].
      * rewrite lookup_alter_eq, Hsid. intros [= <-] [= <-]. cbn. set_solver.
      * rewrite lookup_alter_ne by done. apply Hw.
    + rewrite leave_sockets. intros k s d. cbn.
      destruct (decide (k = sid)) as [->|Hne].
      * rewrite lookup_alter_eq, Hsid. by intros [= <-].
      * rewrite lookup_alter_ne by done. apply Hw.
    + by rewrite edit_sockets.
    + by rewrite cursor_sockets.
    + done.
  - rewrite disconnect_sockets. intros k s d.
    destruct (decide (k = sid)) as [->|Hne].
    + by rewrite lookup_delete_eq.
    + rewrite lookup_delete_ne by done. apply Hw.
  - by destruct msg.
  - done.
Qed.

(** X14. In every state an instance can reach from its start, the
    currentDocument of a connected socket, when it is set, names a room
    the socket is in. *)
Theorem current_document_names_a_room (tr : list Step)
    (docs : gmap string Document) (r : gmap string (gset Z)) :
  current_document_is_a_room (run tr (initial docs r)).
Proof.
  assert (∀ w, current_document_is_a_room w → current_document_is_a_room (run tr w)) as Hrun.
  { induction tr as [|s tr IH]; intros w Hw; [done|].
    cbn. by apply IH, step_current_document. }
  apply Hrun. intros sid s d. cbn. by rewrite lookup_empty.
Qed.

(** X15. In a state reached without any 'document:leave' that names the
    sender's own socket id, the socket that sends an edit gets no
    'document:update' for it: not from the local broadcast, and not from
    the subscriber of any instance, its own included, that was reached in
    the same way. *)
Theorem sender_gets_no_echo_in_regular_runs (tr peer_tr : list Step)
    (docs docs' : gmap string Document) (r r' : gmap string (gset Z))
    (env : Env) (sid : string) (s : SocketState) (documentId newContent : string) :
  Forall (λ s, ¬ leaves_own_room s) tr →
  Forall (λ s, ¬ leaves_own_room s) peer_tr →
  let w := run tr (initial docs r) in
  let peer := run peer_tr (initial docs' r') in
  sockets w !! sid = Some s →
  let w' := exec (handleDocumentEdit env {| id := sid; user := s_user s |}
                    documentId newContent) w in
  (∀ data, (sid, ev_document_update data) ∈ emitted w' →
           (sid, ev_document_update data) ∈ emitted w) ∧
  (∀ (new : list RelayMessage) (m : RelayMessage) data,
     published w' = published w ++ new → m ∈ new →
     (sid, ev_document_update data) ∈ emitted (step (relay_delivers m) peer) →
     (sid, ev_document_update data) ∈ emitted peer).
Proof.
  intros Htr Hpeer w peer Hs w'.
  assert (in_own_room (initial docs r)) as Hinit
    by (intros k s0; cbn; by rewrite lookup_empty).
  assert (in_own_room (initial docs' r')) as Hinit'
    by (intros k s0; cbn; by rewrite lookup_empty).
  pose proof (run_in_own_room tr _ Htr Hinit) as Hw.
  pose proof (run_in_own_room peer_tr _ Hpeer Hinit') as Hp.
  destruct (edit_excludes_sender_in_own_room env {| id := sid; user := s_user s |}
              documentId newContent w) as [Hlocal Hrelay].
  { intros s0. apply Hw. }
  split; [exact Hlocal|].
  intros new m data Hnew Hm. apply (Hrelay new m peer data Hnew Hm).
  intros s0. apply Hp.
Qed.

Lemma sender_gets_no_echo_in_regular_runs_witness :
  let tr := [connection Scenario.alice; connection Scenario.bob;
             from_client Scenario.calm "sockA" (document_join "plan");
             from_client Scenario.calm "sockB" (document_join "plan")] in
  let w := run tr (initial Scenario.store ∅) in
  let w' := exec (handleDocumentEdit Scenario.calm Scenario.alice "plan" "hi") w in
  (∀ data, ("sockA", ev_document_update data) ∈ emitted w' →
           ("sockA", ev_document_update data) ∈ emitted w) ∧
  (∀ (new : list RelayMessage) (m : RelayMessage) data,
     published w' = published w ++ new → m ∈ new →
     ("sockA", ev_document_update data) ∈ emitted (step (relay_delivers m) w) →
     ("sockA", ev_document_update data) ∈ emitted w).
Proof.
  apply (sender_gets_no_echo_in_regular_runs
           [connection Scenario.alice; connection Scenario.bob;
            from_client Scenario.calm "sockA" (document_join "plan");
            from_client Scenario.calm "sockB" (document_join "plan")]
           [connection Scenario.alice; connection Scenario.bob;
            from_client Scenario.calm "sockA" (document_join "plan");
            from_client Scenario.calm "sockB" (document_join "plan")]
           Scenario.store Scenario.store ∅ ∅ Scenario.calm "sockA"
           {| s_user := user Scenario.alice; rooms := {["sockA"; "plan"]};
              currentDocument := Some "plan" |} "plan" "hi").
  - repeat constructor; simpl; intros H; try discriminate H; exact H.
  - repeat constructor; simpl; intros H; try discriminate H; exact H.
  - reflexivity.
Defined.

(** ** Presence sets of other documents *)

Lemma join_redis_other (env : Env) (socket : Socket) (documentId : string) (w : World)
    (key : string) :
  key ≠ users_key documentId →
  redis (exec (handleDocumentJoin env socket documentId) w) !! key = redis w !! key.
Proof.
  intros Hne. unfold_handler. cbn -[hasAccess].
  repeat case_match; simplify_eq/=; try done.
  all: by rewrite lookup_insert_ne.
Qed.

Lemma leave_redis_other (env : Env) (socket : Socket) (documentId : string) (w : World)
    (key : string) :
  key ≠ users_key documentId →
  redis (exec (handleDocumentLeave env socket documentId) w) !! key = redis w !! key.
Proof.
  intros Hne. destruct (sRem_throws env) eqn:Hrem.
  - unfold_handler. rewrite Hrem. cbn. repeat case_match; simplify_eq/=; congruence.
  - rewrite leave_redis by done. cbn.
    destruct (decide _); [by rewrite lookup_delete_ne | by rewrite lookup_insert_ne].
Qed.

(** X16. Two documents never share a presence set: the Redis key built
    from a document id determines the id, so a join or a leave of one
    document, whatever its outcome, leaves the presence set of every other
    document as it was. *)
Theorem presence_sets_are_per_document (env : Env) (socket : Socket)
    (documentId other : string) (w : World) :
  other ≠ documentId →
  users_key other ≠ users_key documentId ∧
  redis (exec (handleDocumentJoin env socket documentId) w) !! users_key other
    = redis w !! users_key other ∧
  redis (exec (handleDocumentLeave env socket documentId) w) !! users_key other
    = redis w !! users_key other.
Proof.
  intros Hne.
  assert (users_key other ≠ users_key documentId) as Hkey
    by (by intros ?%users_key_inj).
  split_and!; [done | by apply join_redis_other | by apply leave_redis_other].
Qed.

Lemma presence_sets_are_per_document_witness :
  users_key "notes" ≠ users_key "plan" ∧
  redis (exec (handleDocumentJoin Scenario.calm Scenario.carol "plan") Scenario.in_plan)
    !! users_key "notes" = redis Scenario.in_plan !! users_key "notes" ∧
  redis (exec (handleDocumentLeave Scenario.calm Scenario.carol "plan") Scenario.in_plan)
    !! users_key "notes" = redis Scenario.in_plan !! users_key "notes".
Proof.
  apply (presence_sets_are_per_document Scenario.calm Scenario.carol "plan" "notes"
           Scenario.in_plan).
  discriminate.
Defined.

(** ** Authentication of a connection *)

(** X17. The middleware lets a connection through only with the payload
    that jwt.verify gives for a non-empty token the client supplied, the
    auth token if that is non-empty and the query token otherwise.  With no
    non-empty token it answers 'No token provided' without calling
    jwt.verify.  A non-empty auth token that does not verify is refused
    even when the query holds a token that would verify. *)
Theorem authenticate_accepts_only_a_verified_token (verify : string → option User)
    (h : Handshake) :
  (∀ decoded, authenticate verify h = next_accepted decoded →
     ∃ t, t ≠ "" ∧ verify t = Some decoded ∧
          (auth_token h = Some t ∨ (truthy (auth_token h) = false ∧ query_token h = Some t))) ∧
  (truthy (auth_token h) = false → truthy (query_token h) = false →
     authenticate verify h = next_error "Authentication error: No token provided") ∧
  (∀ t, auth_token h = Some t → t ≠ "" → verify t = None →
     authenticate verify h = next_error "Authentication error: Invalid token").
Proof.
  destruct h as [a q]. unfold authenticate. cbn. split_and!.
  - intros decoded. destruct (truthy a) eqn:Ha.
    + rewrite Ha. cbn. destruct a as [t|]; [|done]. cbn in *.
      apply bool_decide_eq_true in Ha.
      destruct (verify t) eqn:Hv; [|done]. intros [= <-]. exists t. auto.
    + destruct (truthy q) eqn:Hq; [|done]. cbn. destruct q as [t|]; [|done]. cbn in *.
      apply bool_decide_eq_true in Hq.
      destruct (verify t) eqn:Hv; [|done]. intros [= <-]. exists t. auto.
  - intros Ha Hq. by rewrite Ha, Hq.
  - intros t -> Ht Hv. cbn. rewrite bool_decide_eq_true_2 by done. cbn.
    rewrite bool_decide_eq_true_2 by done. cbn. by rewrite Hv.
Qed.

Lemma authenticate_accepts_only_a_verified_token_witness :
  (∃ t, t ≠ "" ∧ Cases.verify t = Some (user Scenario.bob) ∧
        (Some "" = Some t ∨ (truthy (Some "") = false ∧ Some "token-of-bob" = Some t))) ∧
  authenticate Cases.verify {| auth_token := None; query_token := Some "" |}
    = next_error "Authentication error: No token provided" ∧
  authenticate Cases.verify {| auth_token := Some "forged"; query_token := Some "token-of-alice" |}
    = next_error "Authentication error: Invalid token".
Proof.
  split_and!.
  - apply (proj1 (authenticate_accepts_only_a_verified_token Cases.verify
                    {| auth_token := Some ""; query_token := Some "token-of-bob" |})
             (user Scenario.bob)).
    reflexivity.
  - apply (proj1 (proj2 (authenticate_accepts_only_a_verified_token Cases.verify
                    {| auth_token := None; query_token := Some "" |}))); reflexivity.
  - apply (proj2 (proj2 (authenticate_accepts_only_a_verified_token Cases.verify
                    {| auth_token := Some "forged"; query_token := Some "token-of-alice" |}))
             "forged"); [reflexivity | discriminate | reflexivity].
Defined.

(** ** What the handlers leave alone *)

Lemma edit_redis (env : Env) (socket : Socket) (documentId newContent : string) (w : World) :
  redis (exec (handleDocumentEdit env socket documentId newContent) w) = redis w.
Proof.
  unfold_handler. cbn -[hasWriteAccess]. repeat case_match; by simplify_eq/=.
Qed.

Lemma cursor_redis (env : Env) (socket : Socket) (documentId : string) (position : Z)
    (w : World) :
  redis (exec (handleCursorPosition env socket documentId position) w) = redis w.
Proof. unfold_handler. cbn. repeat case_match; by simplify_eq/=. Qed.

(** X18. An edit, a cursor position and a typing indicator, whatever
    their outcome, change no socket's rooms or currentDocument, no entry of
    the activeUsers map and no presence set. *)
Theorem signals_keep_membership (env : Env) (socket : Socket) (documentId newContent : string)
    (position : Z) (isTyping : bool) (w : World) :
  let unchanged w' :=
    sockets w' = sockets w ∧ activeUsers w' = activeUsers w ∧ redis w' = redis w in
  unchanged (exec (handleDocumentEdit env socket documentId newContent) w) ∧
  unchanged (exec (handleCursorPosition env socket documentId position) w) ∧
  unchanged (exec (handleTypingIndicator env socket documentId isTyping) w).
Proof.
  intros unchanged. subst unchanged. split_and!.
  - apply edit_sockets.
  - apply edit_activeUsers.
  - apply edit_redis.
  - apply cursor_sockets.
  - apply cursor_activeUsers.
  - apply cursor_redis.
  - by unfold_handler.
  - by unfold_handler.
  - by unfold_handler.
Qed.

(** ** The stored documents *)

Lemma join_documents (env : Env) (socket : Socket) (documentId : string) (w : World) :
  documents (exec (handleDocumentJoin env socket documentId) w) = documents w.
Proof.
  unfold_handler. cbn -[hasAccess]. repeat case_match; by simplify_eq/=.
Qed.

Lemma cursor_documents (env : Env) (socket : Socket) (documentId : string) (position : Z)
    (w : World) :
  documents (exec (handleCursorPosition env socket documentId position) w) = documents w.
Proof. unfold_handler. cbn. repeat case_match; by simplify_eq/=. Qed.

Lemma disconnection_documents (env : Env) (socket : Socket) (w : World) :
  documents (exec (handleDisconnection env socket) w) = documents w.
Proof.
  unfold handleDisconnection, exec, try_catch, mbind, M_bind, bind,
    socket_currentDocument, gets. cbn.
  destruct (sockets w !! id socket ≫= currentDocument) as [documentId|]; [|done].
  case_bool_decide; [|done].
  pose proof (leave_documents env socket documentId w) as Hleave. unfold exec in Hleave.
  by destruct (handleDocumentLeave env socket documentId w) as [[] ?].
Qed.

(** The continuation of an edit writes to the stored document, if it
    writes at all, the content if it was modified, the version of its
    snapshot plus one and the editor; the other fields stay as they are
    stored. *)
Lemma edit_resumed_documents (env : Env) (socket : Socket) (documentId newContent : string)
    (found : option Document) (w : World) :
  let w' := exec (handleDocumentEdit_resumed env socket documentId newContent found) w in
  documents w' = documents w ∨
  ∃ document stored stored',
    found = Some document ∧
    hasWriteAccess document (userId (user socket)) = true ∧
    documents w !! documentId = Some stored ∧
    documents w' = <[documentId := stored']> (documents w) ∧
    content stored' = saved_path (content document) newContent (content stored) ∧
    version stored' = version document + 1 ∧
    same_metadata stored stored'.
Proof.
  unfold_handler. cbn -[hasWriteAccess].
  repeat case_match; simplify_eq/=; auto.
  all: right; eexists _, _, _; split_and!; try done.
  all: try (by apply negb_false_iff).
  all: cbn; apply saved_path_version.
Qed.

Lemma step_documents (s : Step) (w : World) (documentId : string) (document : Document) :
  ¬ is_outside s →
  documents w !! documentId = Some document →
  ∃ document', documents (step s w) !! documentId = Some document' ∧
               same_metadata document document'.
Proof.
  intros Hs Hdoc.
  assert (same_metadata document document) as Hrefl by done.
  destruct s as [socket | env sid e | env sid | msg | docs r]; unfold step.
  - destruct (sockets w !! id socket); [eauto|].
    cbv zeta. rewrite on_connection_exec. cbn. eauto.
  - destruct (sockets w !! sid) as [s0|]; [|eauto].
    destruct e as [d | d | d newContent | d position | d isTyping]; unfold handleClientEvent.
    + rewrite join_documents. eauto.
    + rewrite leave_documents. eauto.
    + destruct (findById_throws env) eqn:Hfind.
      { assert (documents (exec (handleDocumentEdit env {| id := sid; user := s_user s0 |}
                                   d newContent) w) = documents w) as ->
          by (unfold_handler; by rewrite Hfind).
        eauto. }
      unfold exec. rewrite handleDocumentEdit_resumed_eq by done.
      destruct (edit_resumed_documents env {| id := sid; user := s_user s0 |} d newContent
                  (documents w !! d) w)
        as [Heq | (doc & stored & stored' & _ & _ & Hst & Heq & _ & _ & Hmeta)];
        unfold exec in Heq; rewrite Heq; [eauto|].
      destruct (decide (d = documentId)) as [->|Hne].
      * rewrite lookup_insert_eq. simplify_eq. eauto.
      * rewrite lookup_insert_ne by done. eauto.
    + rewrite cursor_documents. eauto.
    + eauto.
  - destruct (sockets w !! sid) as [s0|]; [|eauto].
    cbv zeta. rewrite on_disconnect_exec. cbn.
    rewrite disconnection_documents. cbn. eauto.
  - destruct msg; eauto.
  - by destruct Hs.
Qed.

Lemma step_documents_none (s : Step) (w : World) (documentId : string) :
  ¬ is_outside s →
  documents w !! documentId = None →
  documents (step s w) !! documentId = None.
Proof.
  intros Hs Hdoc.
  destruct s as [socket | env sid e | env sid | msg | docs r]; unfold step.
  - destruct (sockets w !! id socket); [done|].
    cbv zeta. by rewrite on_connection_exec.
  - destruct (sockets w !! sid) as [s0|]; [|done].
    destruct e as [d | d | d newContent | d position | d isTyping]; unfold handleClientEvent.
    + by rewrite join_documents.
    + by rewrite leave_documents.
    + destruct (edit_version_step env {| id := sid; user := s_user s0 |} d newContent w)
        as [-> | (doc & stored & Hst & -> & _)]; [done|].
      rewrite lookup_insert_ne; [done|]. intros ->. congruence.
    + by rewrite cursor_documents.
    + done.
  - destruct (sockets w !! sid) as [s0|]; [|done].
    cbv zeta. rewrite on_disconnect_exec. cbn.
    by rewrite disconnection_documents.
  - by destruct msg.
  - by destruct Hs.
Qed.

(** X19. Over any sequence of connections, client events with any
    outcome, disconnections and relay deliveries, the instance creates no
    stored document and deletes none, and every stored document keeps its
    title, owner, collaborators and visibility: an edit is the only write,
    and it assigns only content, version and lastEditedBy. *)
Theorem handlers_keep_document_metadata (tr : list Step) (w : World) (documentId : string) :
  Forall (λ s, ¬ is_outside s) tr →
  match documents w !! documentId with
  | Some document =>
      ∃ document', documents (run tr w) !! documentId = Some document' ∧
                   same_metadata document document'
  | None => documents (run tr w) !! documentId = None
  end.
Proof.
  revert w. induction tr as [|s tr IH]; intros w Htr.
  - cbn. destruct (documents w !! documentId) as [document|]; [|done].
    exists document. by unfold same_metadata.
  - apply Forall_cons in Htr as [Hs Htr]. cbn.
    specialize (IH (step s w) Htr).
    destruct (documents w !! documentId) as [document|] eqn:Hdoc.
    + destruct (step_documents s w documentId document Hs Hdoc) as (d1 & Hd1 & Hm1).
      rewrite Hd1 in IH. destruct IH as (d2 & Hd2 & Hm2).
      exists d2. split; [done|]. unfold same_metadata in *. naive_solver congruence.
    + by rewrite (step_documents_none s w documentId Hs Hdoc) in IH.
Qed.

Lemma handlers_keep_document_metadata_witness :
  ∃ document', documents Cases.edited_twice !! "plan" = Some document' ∧
               same_metadata Scenario.plan document'.
Proof.
  apply (handlers_keep_document_metadata
           [from_client Scenario.calm "sockA" (document_edit "plan" "one");
            from_client Scenario.calm "sockB" (document_edit "plan" "two")]
           Scenario.in_plan "plan").
  repeat constructor; simpl; intros H; exact H.
Defined.

(** X20. An edit that is resumed after its read works from the document as
    it was read.  The write check is made on that snapshot, and the save
    stores the snapshot's version plus one over whatever is stored by then,
    so the stored version need not go up.  The new content is stored when
    it differs from the content that was read; when it is the content that
    was read, the path is not modified and the stored content stays as it
    is, also when it has changed since the read. *)
Theorem resumed_edit_writes_from_its_snapshot (env : Env) (socket : Socket)
    (documentId newContent : string) (found stored : Document) (w : World) :
  save_throws env = false →
  documents w !! documentId = Some stored →
  hasWriteAccess found (userId (user socket)) = true →
  increments_exactly (version found) →
  let w' := exec (handleDocumentEdit_resumed env socket documentId newContent (Some found)) w in
  ∃ stored', documents w' !! documentId = Some stored' ∧
             version stored' = version found + 1 ∧
             (newContent ≠ content found → content stored' = newContent) ∧
             (newContent = content found → content stored' = content stored) ∧
             same_metadata stored stored'.
Proof.
  intros Hsave Hstored Hacc _ w'.
  destruct (resumed_edit_stores env socket documentId newContent found stored w)
    as (stored' & Hdoc & Hv & Hc & Hmeta); [done..|].
  exists stored'. unfold saved_path in Hc. split_and!; [done|done| | |done].
  - intros Hne. by rewrite decide_False in Hc.
  - intros Heq. by rewrite decide_True in Hc.
Qed.

Lemma resumed_edit_writes_from_its_snapshot_witness :
  let late := exec (handleDocumentEdit_resumed Scenario.calm Scenario.alice "plan" "late"
                      (Some Scenario.plan)) Cases.edited_twice in
  let same := exec (handleDocumentEdit_resumed Scenario.calm Scenario.alice "plan" "draft"
                      (Some Scenario.plan)) Cases.edited_twice in
  (version Cases.plan_v9 = 9 ∧ content Cases.plan_v9 = "two") ∧
  (∃ stored', documents late !! "plan" = Some stored' ∧
              version stored' = 7 + 1 ∧ content stored' = "late") ∧
  (∃ stored', documents same !! "plan" = Some stored' ∧
              version stored' = 7 + 1 ∧ content stored' = "two").
Proof.
  split; [by split|]. split.
  - destruct (resumed_edit_writes_from_its_snapshot Scenario.calm Scenario.alice "plan" "late"
                Scenario.plan Cases.plan_v9 Cases.edited_twice eq_refl eq_refl eq_refl)
      as (stored' & Hdoc & Hv & Hc & _).
    + unfold increments_exactly. simpl. lia.
    + exists stored'. split_and!; [exact Hdoc | exact Hv | apply Hc; discriminate].
  - destruct (resumed_edit_writes_from_its_snapshot Scenario.calm Scenario.alice "plan" "draft"
                Scenario.plan Cases.plan_v9 Cases.edited_twice eq_refl eq_refl eq_refl)
      as (stored' & Hdoc & Hv & _ & Hc & _).
    + unfold increments_exactly. simpl. lia.
    + exists stored'. split_and!; [exact Hdoc | exact Hv | apply Hc; reflexivity].
Defined.

(** ** Join: a failure after the presence write *)

(** X21. When the presence write of a join succeeds and the read-back of
    the set or the publish then rejects, the user stays in the document's
    presence set, but no presence message is published, no socket in the
    room is sent one, and the sender is sent 'Failed to join document'
    instead of the document's content. *)
Theorem join_fails_after_the_presence_write (env : Env) (socket : Socket)
    (documentId : string) (w : World) (document : Document) :
  findById_throws env = false →
  documents w !! documentId = Some document →
  hasAccess document (userId (user socket)) = true →
  sAdd_throws env = false →
  sMembers_throws env = true ∨ publish_throws env = true →
  let w' := exec (handleDocumentJoin env socket documentId) w in
  redis w' = <[users_key documentId :=
                 {[userId (user socket)]} ∪ default ∅ (redis w !! users_key documentId)]>
               (redis w) ∧
  published w' = published w ∧
  emitted w' = emitted w ++ [(id socket, ev_error "Failed to join document")].
Proof.
  intros Hfind Hsome Hacc Hadd Hfail. unfold_handler.
  rewrite Hfind, Hsome, Hacc, Hadd. cbn.
  destruct (negb _); cbn;
    destruct (sMembers_throws env) eqn:Hmem; cbn; try done;
    destruct (publish_throws env) eqn:Hpub; cbn; try done;
    by destruct Hfail.
Qed.

Lemma join_fails_after_the_presence_write_witness :
  let w' := exec (handleDocumentJoin Scenario.relay_down Scenario.carol "plan")
              Scenario.in_plan in
  redis w' = <[users_key "plan" := {[3]} ∪ default ∅ (redis Scenario.in_plan !! users_key "plan")]>
               (redis Scenario.in_plan) ∧
  published w' = published Scenario.in_plan ∧
  emitted w' = emitted Scenario.in_plan ++ [("sockC", ev_error "Failed to join document")].
Proof.
  apply (join_fails_after_the_presence_write Scenario.relay_down Scenario.carol "plan"
           Scenario.in_plan Scenario.plan); try reflexivity.
  right. reflexivity.
Defined.
